(** * Maquina de refrescos: analizador semantico

    Shallow embedding of [src/maquina_refrescos.py] (classes [Nodo] and
    [AnalizadorSemantico]) and the properties of its specification.

    Conventions of the embedding.
    - A Python [str] is a list of Unicode code points ([str := list N]);
      literals are written with [py "..."], which decodes the UTF-8 bytes
      of a Rocq string literal.
    - Python [int] is [Z] (unbounded).
    - A [Nodo] object is a node of a rose tree that carries its mutable
      semantic attributes.  The back reference [padre] is not stored: the
      only reads of it are [nodo.padre.saldo] and
      [nodo.padre.refrescos_comprados] inside [_decorar_arbol], so the
      decoration function receives the current attributes of the parent
      (or [None] for a node without parent) as an argument.
    - [self.errores_globales] is the state of the analyser; it is threaded
      explicitly through every method that appends to it.
    - Python's recursion limit is not modelled. *)

From Stdlib Require Import ZArith NArith List Bool Ascii String Lia.
From Stdlib Require Import DecimalString FunInd.
Import ListNotations.

Open Scope Z_scope.

(* ================================================================== *)
(** ** Python strings *)
(* ================================================================== *)

Module PyStr.

Definition caracter := N.
Definition str := list caracter.

(** Decoder of the UTF-8 bytes of a literal (one, two and three byte
    sequences are enough for the literals of the program). *)
Fixpoint decodificar (bs : list N) : str :=
  match bs with
  | [] => []
  | b :: r =>
      if (b <? 128)%N then b :: decodificar r
      else if (b <? 224)%N then
        match r with
        | c :: r' => ((b - 192) * 64 + (c - 128))%N :: decodificar r'
        | [] => []
        end
      else
        match r with
        | c :: d :: r' =>
            ((b - 224) * 4096 + (c - 128) * 64 + (d - 128))%N :: decodificar r'
        | _ => []
        end
  end.

Definition py (s : string) : str :=
  decodificar (map N_of_ascii (list_ascii_of_string s)).

Definition car (a : ascii) : caracter := N_of_ascii a.

Definition car_eqb (a b : caracter) : bool := N.eqb a b.

Fixpoint str_eqb (a b : str) : bool :=
  match a, b with
  | [], [] => true
  | x :: a', y :: b' => car_eqb x y && str_eqb a' b'
  | _, _ => false
  end.

Definition str_eq_dec (a b : str) : {a = b} + {a <> b} :=
  list_eq_dec N.eq_dec a b.

(** [str(n)] for an integer, as used by f-strings. *)
Definition str_de_entero (z : Z) : str :=
  py (NilZero.string_of_int (Z.to_int z)).

(** [str.isspace] on one character: the white space code points of
    CPython ([_PyUnicode_IsWhitespace]). *)
Definition es_espacio_blanco (c : caracter) : bool :=
  ((9 <=? c) && (c <=? 13) || (28 <=? c) && (c <=? 32)
   || (c =? 133) || (c =? 160) || (c =? 5760)
   || (8192 <=? c) && (c <=? 8202)
   || (c =? 8232) || (c =? 8233) || (c =? 8239) || (c =? 8287)
   || (c =? 12288))%N.

Fixpoint lstrip (s : str) : str :=
  match s with
  | [] => []
  | c :: r => if es_espacio_blanco c then lstrip r else s
  end.

(** [s.strip()] *)
Definition strip (s : str) : str := rev (lstrip (rev (lstrip s))).

(** [s.startswith(c)] and [s.endswith(c)] for a one character [c]. *)
Definition startswith (s : str) (c : caracter) : bool :=
  match s with
  | [] => false
  | x :: _ => car_eqb x c
  end.

Definition endswith (s : str) (c : caracter) : bool :=
  match rev s with
  | [] => false
  | x :: _ => car_eqb x c
  end.

(** The slice [s[1:-1]]. *)
Definition rebanada_1_m1 (s : str) : str := removelast (tl s).

(** [c in l] for a list of characters. *)
Definition pertenece (c : caracter) (l : str) : bool :=
  existsb (car_eqb c) l.

End PyStr.
Import PyStr.

(* ================================================================== *)
(** ** class Nodo *)
(* ================================================================== *)

(** The semantic attributes of a node (the mutable fields). *)
Record Atributos := mkAtributos {
  saldo : Z;
  valido : bool;
  nivel : Z;
  refrescos_comprados : Z;
  errores : list str
}.

#[local] Unset Elimination Schemes.
Inductive Nodo := mkNodo {
  simbolo : str;
  tipo : str;
  hijos : list Nodo;
  atributos : Atributos
}.
#[local] Set Elimination Schemes.

(** Values given by [Nodo.__init__]. *)
Definition atributos_iniciales : Atributos :=
  {| saldo := 0; valido := true; nivel := 0;
     refrescos_comprados := 0; errores := [] |}.

Definition terminal : str := py "terminal".
Definition no_terminal : str := py "no_terminal".

(** [Nodo(simbolo, tipo)] *)
Definition Nodo_nuevo (simbolo_ tipo_ : str) : Nodo :=
  mkNodo simbolo_ tipo_ [] atributos_iniciales.

(** [nodo.agregar_hijo(hijo)]: the child is appended; its [padre] is the
    node that holds it. *)
Definition agregar_hijo (nodo hijo : Nodo) : Nodo :=
  mkNodo (simbolo nodo) (tipo nodo) (hijos nodo ++ [hijo]) (atributos nodo).

Definition n_saldo (n : Nodo) : Z := saldo (atributos n).
Definition n_valido (n : Nodo) : bool := valido (atributos n).
Definition n_nivel (n : Nodo) : Z := nivel (atributos n).
Definition n_refrescos (n : Nodo) : Z := refrescos_comprados (atributos n).
Definition n_errores (n : Nodo) : list str := errores (atributos n).

(** Field assignments. *)
Definition con_saldo (a : Atributos) (v : Z) : Atributos :=
  mkAtributos v (valido a) (nivel a) (refrescos_comprados a) (errores a).
Definition con_valido (a : Atributos) (v : bool) : Atributos :=
  mkAtributos (saldo a) v (nivel a) (refrescos_comprados a) (errores a).
Definition con_nivel (a : Atributos) (v : Z) : Atributos :=
  mkAtributos (saldo a) (valido a) v (refrescos_comprados a) (errores a).
Definition con_refrescos (a : Atributos) (v : Z) : Atributos :=
  mkAtributos (saldo a) (valido a) (nivel a) v (errores a).
Definition con_errores (a : Atributos) (v : list str) : Atributos :=
  mkAtributos (saldo a) (valido a) (nivel a) (refrescos_comprados a) v.

(** All the nodes of a tree, the node itself first, children left to
    right (the order in which the renderers visit them). *)
Fixpoint nodos (n : Nodo) : list Nodo :=
  n :: flat_map nodos (hijos n).

(** The proper descendants of a node. *)
Definition descendientes (n : Nodo) : list Nodo := flat_map nodos (hijos n).

(** Symbols of the terminal leaves, left to right. *)
Fixpoint hojas (n : Nodo) : list str :=
  match hijos n with
  | [] => if str_eqb (tipo n) terminal then [simbolo n] else []
  | hs => flat_map hojas hs
  end.

(* ================================================================== *)
(** ** class AnalizadorSemantico *)
(* ================================================================== *)

(** The object state: [self.errores_globales]. *)
Record AnalizadorSemantico := mkAnalizador {
  errores_globales : list str
}.

(** [AnalizadorSemantico()] *)
Definition Analizador_nuevo : AnalizadorSemantico := mkAnalizador [].

(** *** Diagnostics *)

Definition msg_delimitadores : str :=
  py "La cadena debe empezar con '{' y terminar con '}'".
Definition msg_desbalance : str := py "Llaves desbalanceadas".
Definition msg_caracter (char : caracter) : str :=
  py "Carácter inválido: '" ++ [char] ++ py "'".
Definition msg_limite_nodo (nivel_ : Z) : str :=
  py "Excede el límite de 3 niveles de anidación (nivel "
    ++ str_de_entero nivel_ ++ py ")".
Definition msg_limite : str :=
  py "Excede el límite de 3 niveles de anidación".
Definition msg_saldo (saldo_actual : Z) : str :=
  py "Saldo insuficiente para comprar refresco (saldo: "
    ++ str_de_entero saldo_actual ++ py ", necesario: 3)".
Definition msg_maximo : str := py "Excede el máximo de 3 refrescos por bloque".
Definition msg_sin_monedas : str := py "No hay monedas para devolver".

(** *** _validar_sintaxis *)

(** The brace balance loop: [None] is the early return on a negative
    level, [Some nivel] the level after the whole scan. *)
Fixpoint balance_llaves (nivel_ : Z) (s : str) : option Z :=
  match s with
  | [] => Some nivel_
  | char :: r =>
      if car_eqb char (car "{") then balance_llaves (nivel_ + 1) r
      else if car_eqb char (car "}") then
        if nivel_ - 1 <? 0 then None else balance_llaves (nivel_ - 1) r
      else balance_llaves nivel_ r
  end.

Definition caracteres_validos : str := py "{}$R< ".

(** First character that is not in [caracteres_validos]. *)
Definition primer_invalido (s : str) : option caracter :=
  find (fun char => negb (pertenece char caracteres_validos)) s.

Definition _validar_sintaxis (self : AnalizadorSemantico) (cadena : str)
  : bool * AnalizadorSemantico :=
  let eg := errores_globales self in
  let cadena := strip cadena in
  if negb (startswith cadena (car "{")) || negb (endswith cadena (car "}"))
  then (false, mkAnalizador (eg ++ [msg_delimitadores]))
  else
    match balance_llaves 0 cadena with
    | None => (false, mkAnalizador (eg ++ [msg_desbalance]))
    | Some nivel_ =>
        if negb (nivel_ =? 0)
        then (false, mkAnalizador (eg ++ [msg_desbalance]))
        else
          match primer_invalido cadena with
          | Some char => (false, mkAnalizador (eg ++ [msg_caracter char]))
          | None => (true, mkAnalizador eg)
          end
    end.

(** *** _construir_arbol and _procesar_contenido *)

(** The inner [while j < len(contenido) and nivel > 0] scan for the
    closing brace, started at [j = i + 1] on [s = contenido[i+1:]]:
    returns [(contenido[i+1:j], contenido[j:])]. *)
Fixpoint buscar_cierre (nivel_ : Z) (s : str) : str * str :=
  match s with
  | [] => ([], [])
  | c :: r =>
      if nivel_ >? 0 then
        let nivel' :=
          if car_eqb c (car "{") then nivel_ + 1
          else if car_eqb c (car "}") then nivel_ - 1
          else nivel_ in
        let '(dentro, fuera) := buscar_cierre nivel' r in
        (c :: dentro, fuera)
      else ([], s)
  end.

Definition epsilon : Nodo := Nodo_nuevo (py "ε") terminal.

(** A node with the given children, attached in order. *)
Definition con_hijos (n : Nodo) (hs : list Nodo) : Nodo :=
  fold_left agregar_hijo hs n.

(** The [while i < len(contenido)] loop of [_procesar_contenido].  The
    position [i] is represented by the suffix [resto = contenido[i:]]
    (the loop never looks before [i]); the result is the list of children
    that the loop attaches to the current [nodo_c] (the nodes are built
    with their children instead of being filled in after they are
    attached).  [fuel] bounds the number of iterations and nested calls;
    [length resto] is enough (lemmas [bucle_combustible] and
    [llamada_recursiva]). *)
Fixpoint bucle (fuel : nat) (resto : str) : list Nodo :=
  match fuel with
  | O => []
  | S f =>
      match resto with
      | [] => []
      | char :: sig =>
          if car_eqb char (car " ") then bucle f sig
          else
            (* C -> A C *)
            let nodo_a := Nodo_nuevo (py "A") no_terminal in
            let nodo_c_siguiente := Nodo_nuevo (py "C") no_terminal in
            let '(nodo_a, resto') :=
              if pertenece char (py "$R<") then
                (* A -> $ | R | < *)
                (agregar_hijo nodo_a (Nodo_nuevo [char] terminal), sig)
              else if car_eqb char (car "{") then
                (* A -> { C } *)
                let '(dentro, fuera) := buscar_cierre 1 sig in
                let bloque_completo := char :: dentro in
                let contenido_interno := rebanada_1_m1 bloque_completo in
                (* self._procesar_contenido(nodo_c_interno, ...) *)
                let nodo_c_interno :=
                  con_hijos (Nodo_nuevo (py "C") no_terminal)
                    (match contenido_interno with
                     | [] => [epsilon]
                     | _ => bucle f contenido_interno
                     end) in
                (con_hijos nodo_a
                   [Nodo_nuevo (py "{") terminal; nodo_c_interno;
                    Nodo_nuevo (py "}") terminal],
                 fuera)
              else (nodo_a, sig) in
            let contenido_restante := strip resto' in
            match contenido_restante with
            | [] => [nodo_a; agregar_hijo nodo_c_siguiente epsilon]
            | _ => [nodo_a; con_hijos nodo_c_siguiente (bucle f resto')]
            end
      end
  end.

(** [_procesar_contenido(nodo_c, contenido)]: the children attached to
    [nodo_c]. *)
Definition _procesar_contenido (contenido : str) : list Nodo :=
  match contenido with
  | [] => [epsilon]
  | _ => bucle (List.length contenido) contenido
  end.

Definition _construir_arbol (cadena : str) : Nodo :=
  let raiz := Nodo_nuevo (py "P") no_terminal in
  let llave_izq := Nodo_nuevo (py "{") terminal in
  let nodo_c := Nodo_nuevo (py "C") no_terminal in
  let llave_der := Nodo_nuevo (py "}") terminal in
  let contenido := strip (rebanada_1_m1 cadena) in
  let nodo_c := con_hijos nodo_c (_procesar_contenido contenido) in
  con_hijos raiz [llave_izq; nodo_c; llave_der].

(** *** _decorar_arbol *)

(** [nodo.padre.saldo if nodo.padre else 0] and the same for
    [refrescos_comprados]. *)
Definition saldo_del_padre (padre : option Atributos) : Z :=
  match padre with Some p => saldo p | None => 0 end.
Definition refrescos_del_padre (padre : option Atributos) : Z :=
  match padre with Some p => refrescos_comprados p | None => 0 end.

(** [self._decorar_arbol(nodo, nivel)].

    - [eg] is [self.errores_globales] on entry; the second component of
      the result is its value on return.
    - [padre] holds the attributes that [nodo.padre] has at the time of
      the call.
    - [a0] holds the attributes of [nodo] at the time of the call: the
      caller may have assigned [saldo] and [refrescos_comprados] of the
      node just before the call (the seeding of the next [C]); otherwise
      it is [atributos nodo].
    - The final loop of the method ("Decorar hijos restantes") calls
      nothing: every [Nodo] has the attribute [saldo], so
      [not hasattr(hijo, 'saldo')] is false for every child. *)
Fixpoint _decorar_arbol (eg : list str) (padre : option Atributos) (nodo : Nodo)
    (a0 : Atributos) (nivel_ : Z) {struct nodo} : Nodo * list str :=
  match nodo with
  | mkNodo sim tip hs _ =>
    let a := con_nivel a0 nivel_ in
    if nivel_ >? 3 then
      let a := con_valido a false in
      let a := con_errores a (errores a ++ [msg_limite_nodo nivel_]) in
      (mkNodo sim tip hs a, eg ++ [msg_limite])
    else if str_eqb sim (py "P") then
      match hs with
      | h0 :: nodo_c :: mas =>
          let '(nodo_c, eg) :=
            _decorar_arbol eg (Some a) nodo_c (atributos nodo_c) nivel_ in
          let a := con_saldo a (n_saldo nodo_c) in
          let a := con_valido a (n_valido nodo_c) in
          let a := con_refrescos a (n_refrescos nodo_c) in
          let a := con_errores a (errores a ++ n_errores nodo_c) in
          (mkNodo sim tip (h0 :: nodo_c :: mas) a, eg)
      | _ => (mkNodo sim tip hs a, eg)
      end
    else if str_eqb sim (py "C") then
      match hs with
      | [h0] =>
          if str_eqb (simbolo h0) (py "ε") then
            let a := con_saldo a 0 in
            let a := con_valido a true in
            let a := con_refrescos a 0 in
            (mkNodo sim tip hs a, eg)
          else (mkNodo sim tip hs a, eg)
      | [nodo_a; nodo_c] =>
          let '(nodo_a, eg) :=
            _decorar_arbol eg (Some a) nodo_a (atributos nodo_a) nivel_ in
          let a := con_saldo a (n_saldo nodo_a) in
          let a := con_valido a (n_valido nodo_a) in
          let a := con_refrescos a (n_refrescos nodo_a) in
          let a := con_errores a (errores a ++ n_errores nodo_a) in
          let semilla :=
            con_refrescos (con_saldo (atributos nodo_c) (saldo a))
              (refrescos_comprados a) in
          let '(nodo_c, eg) := _decorar_arbol eg (Some a) nodo_c semilla nivel_ in
          let a := con_saldo a (n_saldo nodo_c) in
          let a := con_valido a (valido a && n_valido nodo_c) in
          let a := con_refrescos a (n_refrescos nodo_c) in
          let a := con_errores a (errores a ++ n_errores nodo_c) in
          (mkNodo sim tip [nodo_a; nodo_c] a, eg)
      | _ => (mkNodo sim tip hs a, eg)
      end
    else if str_eqb sim (py "A") then
      match hs with
      | [hijo] =>
          if str_eqb (simbolo hijo) (py "$") then
            let a := con_saldo a (saldo_del_padre padre + 1) in
            let a := con_valido a true in
            let a := con_refrescos a (refrescos_del_padre padre) in
            (mkNodo sim tip hs a, eg)
          else if str_eqb (simbolo hijo) (py "R") then
            let saldo_actual := saldo_del_padre padre in
            let refrescos_actual := refrescos_del_padre padre in
            if saldo_actual <? 3 then
              let a := con_valido a false in
              let a := con_errores a (errores a ++ [msg_saldo saldo_actual]) in
              let a := con_saldo a saldo_actual in
              let a := con_refrescos a refrescos_actual in
              (mkNodo sim tip hs a, eg)
            else if refrescos_actual >=? 3 then
              let a := con_valido a false in
              let a := con_errores a (errores a ++ [msg_maximo]) in
              let a := con_saldo a saldo_actual in
              let a := con_refrescos a refrescos_actual in
              (mkNodo sim tip hs a, eg)
            else
              let a := con_saldo a (saldo_actual - 3) in
              let a := con_valido a true in
              let a := con_refrescos a (refrescos_actual + 1) in
              (mkNodo sim tip hs a, eg)
          else if str_eqb (simbolo hijo) (py "<") then
            let saldo_actual := saldo_del_padre padre in
            let a :=
              if saldo_actual <? 1 then
                let a := con_valido a false in
                let a := con_errores a (errores a ++ [msg_sin_monedas]) in
                con_saldo a saldo_actual
              else
                let a := con_saldo a (saldo_actual - 1) in
                con_valido a true in
            let a := con_refrescos a (refrescos_del_padre padre) in
            (mkNodo sim tip hs a, eg)
          else (mkNodo sim tip hs a, eg)
      | [llave_izq; nodo_c; llave_der] =>
          let '(nodo_c, eg) :=
            _decorar_arbol eg (Some a) nodo_c (atributos nodo_c) (nivel_ + 1) in
          let a := con_saldo a (saldo_del_padre padre) in
          let a := con_valido a (n_valido nodo_c) in
          let a := con_refrescos a (refrescos_del_padre padre) in
          let a := con_errores a (errores a ++ n_errores nodo_c) in
          (mkNodo sim tip [llave_izq; nodo_c; llave_der] a, eg)
      | _ => (mkNodo sim tip hs a, eg)
      end
    else (mkNodo sim tip hs a, eg)
  end.

(** *** analizar_cadena *)

(** Returns the pair [(nodo_raiz, es_valida)] and the analyser after the
    call; [None] is Python's [None]. *)
Definition analizar_cadena (self : AnalizadorSemantico) (cadena : str)
  : (option Nodo * bool) * AnalizadorSemantico :=
  let self := mkAnalizador [] in
  let '(ok, self) := _validar_sintaxis self cadena in
  if negb ok then ((None, false), self)
  else
    let raiz := _construir_arbol cadena in
    let '(raiz, eg) :=
      _decorar_arbol (errores_globales self) None raiz (atributos raiz) 1 in
    let self := mkAnalizador eg in
    let es_valida :=
      n_valido raiz && (Z.of_nat (List.length (errores_globales self)) =? 0) in
    ((Some raiz, es_valida), self).


(** *** imprimir_arbol_visual and imprimir_arbol *)

(** [str(b)] for a boolean, as used by f-strings. *)
Definition str_de_bool (b : bool) : str :=
  if b then py "True" else py "False".

(** The line feed character of ["\n"]. *)
Definition salto : str := [10%N].

(** [sep.join(l)] *)
Fixpoint unir (sep : str) (l : list str) : str :=
  match l with
  | [] => []
  | x :: r =>
      match r with
      | [] => x
      | _ => x ++ sep ++ unir sep r
      end
  end.

(** [s * n] for a string and an integer. *)
Definition repetir (s : str) (n : Z) : str :=
  List.concat (repeat s (Z.to_nat n)).

(** [imprimir_arbol_visual(nodo, prefijo, es_ultimo, es_raiz)]: the list
    [resultado] holds the line of the node, its error lines and the
    texts of the children, and is joined at the end. *)
Fixpoint imprimir_arbol_visual (nodo : Nodo) (prefijo : str)
    (es_ultimo es_raiz : bool) {struct nodo} : str :=
  match nodo with
  | mkNodo sim tip hs a =>
    let linea_actual :=
      if es_raiz then []
      else
        let conector := if es_ultimo then py "└── " else py "├── " in
        prefijo ++ conector in
    let resultado :=
      if str_eqb tip no_terminal then
        let atributos_ :=
          py "[saldo=" ++ str_de_entero (saldo a)
            ++ py ", valido=" ++ str_de_bool (valido a)
            ++ py ", nivel=" ++ str_de_entero (nivel a)
            ++ py ", refrescos=" ++ str_de_entero (refrescos_comprados a)
            ++ py "]" in
        let error_prefijo :=
          prefijo ++ (if es_ultimo then py "    " else py "│   ") in
        (linea_actual ++ sim ++ atributos_)
          :: map (fun error => error_prefijo ++ py "⚠ ERROR: " ++ error)
               (errores a)
      else [linea_actual ++ sim] in
    let nuevo_prefijo :=
      if es_raiz then []
      else prefijo ++ (if es_ultimo then py "    " else py "│   ") in
    let resultado :=
      resultado ++
      (fix de_hijos (l : list Nodo) : list str :=
         match l with
         | [] => []
         | hijo :: r =>
             let es_ultimo_hijo :=
               match r with [] => true | _ => false end in
             imprimir_arbol_visual hijo nuevo_prefijo es_ultimo_hijo false
               :: de_hijos r
         end) hs in
    unir salto resultado
  end.

(** [imprimir_arbol(nodo, nivel)] *)
Fixpoint imprimir_arbol (nodo : Nodo) (nivel_ : Z) {struct nodo} : str :=
  match nodo with
  | mkNodo sim tip hs a =>
    let indentacion := repetir (py "  ") nivel_ in
    let resultado :=
      if str_eqb tip no_terminal then
        let info :=
          py "saldo=" ++ str_de_entero (saldo a)
            ++ py ", valido=" ++ str_de_bool (valido a)
            ++ py ", nivel=" ++ str_de_entero (nivel a)
            ++ py ", refrescos=" ++ str_de_entero (refrescos_comprados a) in
        (indentacion ++ sim ++ py " (" ++ info ++ py ")")
          :: map (fun error => indentacion ++ py "  ERROR: " ++ error)
               (errores a)
      else [indentacion ++ sim] in
    let resultado :=
      resultado
        ++ map (fun hijo => imprimir_arbol hijo (nivel_ + 1)) hs in
    unir salto resultado
  end.

(** *** Batch mode of [main]: the strings read from the file *)

(** [[linea.strip() for linea in archivo if linea.strip()]] *)
Definition cadenas_de_archivo (archivo : list str) : list str :=
  map strip
    (filter (fun linea => match strip linea with [] => false | _ => true end)
       archivo).

(** *** Batch mode of [main]: the name of the result file *)

(** [s.startswith(p)] *)
Fixpoint es_prefijo (p s : str) : bool :=
  match p, s with
  | [], _ => true
  | _ :: _, [] => false
  | x :: p', y :: s' => car_eqb x y && es_prefijo p' s'
  end.

(** [s.replace(viejo, nuevo)] for a non empty [viejo]: the occurrences
    are taken from left to right and do not overlap.  [saltar] counts
    the characters of the occurrence just replaced that are still to be
    passed over. *)
Fixpoint reemplazar (viejo nuevo : str) (saltar : nat) (s : str) : str :=
  match s with
  | [] => []
  | c :: r =>
      match saltar with
      | S k => reemplazar viejo nuevo k r
      | O =>
          if es_prefijo viejo s then
            nuevo ++ reemplazar viejo nuevo (List.length viejo - 1) r
          else c :: reemplazar viejo nuevo 0 r
      end
  end.

(** [nombre_salida = nombre_archivo.replace('.txt', '_resultado.txt')] *)
Definition nombre_salida (nombre_archivo : str) : str :=
  reemplazar (py ".txt") (py "_resultado.txt") 0 nombre_archivo.

(** *** InterfazGrafica.setup_ui: the predefined examples *)

(** [self.ejemplos]: each string with its description. *)
Definition ejemplos : list (str * str) :=
  [ (py "{ $ $ $ R }", py "Válido - 3 monedas, 1 refresco");
    (py "{ $ { $ $ $ R } < }", py "Válido - Bloque anidado");
    (py "{ $ $ $ $ $ $ $ $ $ R R R }", py "Válido - 9 monedas, 3 refrescos");
    (py "{ $ R }", py "Inválido - Saldo insuficiente");
    (py "{ $ { $ $ R } < }",
     py "Inválido - Saldo insuficiente en bloque anidado");
    (py "{ { { { $ $ $ R } } } }",
     py "Inválido - Excede niveles de anidación");
    (py "{ < }", py "Inválido - No hay monedas para devolver");
    (py "{ $ $ $ $ R R R R }", py "Inválido - Excede máximo de refrescos") ].
(** "Accepted by the syntax validator". *)
Definition sintaxis_valida (cadena : str) : bool :=
  fst (_validar_sintaxis Analizador_nuevo cadena).

(** The three results of a call of [analizar_cadena] on a new analyser. *)
Definition arbol_de (cadena : str) : option Nodo :=
  fst (fst (analizar_cadena Analizador_nuevo cadena)).
Definition es_valida_de (cadena : str) : bool :=
  snd (fst (analizar_cadena Analizador_nuevo cadena)).
Definition errores_de (cadena : str) : list str :=
  errores_globales (snd (analizar_cadena Analizador_nuevo cadena)).


(** Induction principle for the nested tree type. *)
Section Induccion.
Variable P : Nodo -> Prop.
Hypothesis paso :
  forall sim tip hs a, Forall P hs -> P (mkNodo sim tip hs a).

Fixpoint Nodo_ind (n : Nodo) : P n :=
  match n with
  | mkNodo sim tip hs a =>
      paso sim tip hs a
        ((fix todos (l : list Nodo) : Forall P l :=
            match l with
            | [] => Forall_nil P
            | h :: l' => Forall_cons h (Nodo_ind h) (todos l')
            end) hs)
  end.
End Induccion.

(** Range of the two counters of a node (C10). *)
Definition en_rango (a : Atributos) : Prop :=
  0 <= saldo a /\ 0 <= refrescos_comprados a <= 3.

Definition nodo_en_rango (n : Nodo) : Prop := en_rango (atributos n).

Definition padre_en_rango (padre : option Atributos) : Prop :=
  match padre with Some p => en_rango p | None => True end.

(** A node as it is built: every attribute has its initial value. *)
Definition fresco (n : Nodo) : Prop := atributos n = atributos_iniciales.

(** The node was stopped by the depth gate: its level exceeds 3. *)
Definition excede (n : Nodo) : bool := n_nivel n >? 3.

Definition arbol_fresco (n : Nodo) : Prop := Forall fresco (nodos n).

(** Number of nodes of a tree stopped by the depth gate. *)
Definition cuenta_excede (n : Nodo) : nat :=
  List.length (filter excede (nodos n)).

(** [A -> $ | R | <]: an [A] node with exactly one child. *)
Definition accion_simple (n : Nodo) : bool :=
  str_eqb (simbolo n) (py "A") && (List.length (hijos n) =? 1)%nat.

(** What the decoration pass leaves in a node of a tree that was built
    by [_construir_arbol]. *)
Definition bien_decorado (n : Nodo) : Prop :=
  (excede n = true ->
   n_valido n = false /\
   n_errores n = [msg_limite_nodo (n_nivel n)] /\
   Forall fresco (descendientes n)) /\
  (excede n = false -> accion_simple n = false ->
   n_errores n = flat_map n_errores (hijos n)).

(** The children of a [C] node whose chain of [C] nodes ends in a [C]
    with the single child [ε]. *)
Inductive cadena_cerrada : list Nodo -> Prop :=
| cerrada_eps : cadena_cerrada [epsilon]
| cerrada_AC (nodo_a : Nodo) (tip : str) (hs : list Nodo) (a : Atributos) :
    cadena_cerrada hs ->
    cadena_cerrada [nodo_a; mkNodo (py "C") tip hs a].

(** The tokens [$], [R], [<] of the input, in order. *)
Definition fichas_de_entrada (cadena : str) : list str :=
  map (fun c => [c]) (filter (fun c => pertenece c (py "$R<")) cadena).

(** The terminal leaves of a tree, without the braces and [ε]. *)
Definition es_ficha (s : str) : bool :=
  negb (str_eqb s (py "{") || str_eqb s (py "}") || str_eqb s (py "ε")).

Definition fichas_del_arbol (n : Nodo) : list str :=
  filter es_ficha (hojas n).

Functional Scheme _decorar_arbol_ind :=
  Induction for _decorar_arbol Sort Prop.

(** The content of a block in the grammar of the language: tokens and
    nested blocks, with optional spaces. *)
Inductive contenido_gramatical : str -> Prop :=
| cg_vacio : contenido_gramatical []
| cg_espacio (s : str) :
    contenido_gramatical s -> contenido_gramatical (car " " :: s)
| cg_ficha (c : caracter) (s : str) :
    pertenece c (py "$R<") = true ->
    contenido_gramatical s -> contenido_gramatical (c :: s)
| cg_bloque (s1 s2 : str) :
    contenido_gramatical s1 -> contenido_gramatical s2 ->
    contenido_gramatical (car "{" :: s1 ++ car "}" :: s2).

(** A string of the language: [{ contenido }]. *)
Definition cadena_gramatical (cadena : str) : Prop :=
  exists s, contenido_gramatical s /\ cadena = car "{" :: s ++ [car "}"].

(** Leaves that are tokens, for a list of trees. *)
Definition fichas_de_hijos (l : list Nodo) : list str :=
  filter es_ficha (flat_map hojas l).

(** The greatest brace depth reached by a prefix of a string: the
    nesting depth of the deepest block content in it. *)
Fixpoint profundidad_maxima (s : str) : Z :=
  match s with
  | [] => 0
  | c :: r =>
      if car_eqb c (car "{") then Z.max 0 (1 + profundidad_maxima r)
      else if car_eqb c (car "}") then Z.max 0 (profundidad_maxima r - 1)
      else profundidad_maxima r
  end.

(* ================================================================== *)
(** ** Definitions for further properties *)
(* ================================================================== *)

(** A node is coherent when it is valid exactly if it carries no
    diagnostic. *)
Definition coherente (n : Nodo) : Prop :=
  n_valido n = true <-> n_errores n = [].

Definition nodo_valido (n : Nodo) : Prop := n_valido n = true.

(** The tree without its decoration: every attribute back to its
    initial value. *)
Fixpoint borrar (n : Nodo) : Nodo :=
  match n with
  | mkNodo sim tip hs _ => mkNodo sim tip (map borrar hs) atributos_iniciales
  end.

(** Reference machine for the language: a stack with one frame
    [(saldo, refrescos)] per open block.  An opening brace pushes a new
    frame (refused when three blocks are open already), a closing brace
    pops it, a token works on the top frame, any other character does
    nothing.  [None] is a refused step. *)
Definition sobre_tope (pila : list (Z * Z))
    (f : Z -> Z -> option (Z * Z)) : option (list (Z * Z)) :=
  match pila with
  | [] => None
  | (b, k) :: resto =>
      match f b k with
      | Some t => Some (t :: resto)
      | None => None
      end
  end.

Definition paso (pila : list (Z * Z)) (c : caracter) : option (list (Z * Z)) :=
  if car_eqb c (car "{") then
    if 3 <=? Z.of_nat (List.length pila) then None else Some ((0, 0) :: pila)
  else if car_eqb c (car "}") then
    match pila with
    | [] => None
    | _ :: resto => Some resto
    end
  else if car_eqb c (car "$") then
    sobre_tope pila (fun b k => Some (b + 1, k))
  else if car_eqb c (car "R") then
    sobre_tope pila
      (fun b k =>
         if b <? 3 then None
         else if k >=? 3 then None
         else Some (b - 3, k + 1))
  else if car_eqb c (car "<") then
    sobre_tope pila (fun b k => if b <? 1 then None else Some (b - 1, k))
  else Some pila.

Fixpoint correr (pila : list (Z * Z)) (s : str) : option (list (Z * Z)) :=
  match s with
  | [] => Some pila
  | c :: r =>
      match paso pila c with
      | Some pila' => correr pila' r
      | None => None
      end
  end.

Definition termina (r : option (list (Z * Z))) : bool :=
  match r with Some _ => true | None => false end.

Definition estado (a : Atributos) : Z * Z := (saldo a, refrescos_comprados a).

(** What the main lemma says of one content. *)
Definition sigue_maquina (f : nat) (s : str) : Prop :=
  forall eg padre tip at_ a0 nivel_ resto,
    nivel_ <= 3 -> Z.of_nat (List.length resto) + 1 = nivel_ ->
    valido a0 = true ->
    n_valido
      (fst (_decorar_arbol eg padre (mkNodo (py "C") tip (bucle f s) at_)
              a0 nivel_))
    = termina (correr (estado a0 :: resto) s).

(** *** The lines of the two renderings *)

(** The lines of [imprimir_arbol], one list for the whole tree. *)
Fixpoint lineas_indentadas (nodo : Nodo) (nivel_ : Z) {struct nodo}
  : list str :=
  match nodo with
  | mkNodo sim tip hs a =>
    let indentacion := repetir (py "  ") nivel_ in
    (if str_eqb tip no_terminal then
       (indentacion ++ sim ++ py " (" ++
          (py "saldo=" ++ str_de_entero (saldo a)
             ++ py ", valido=" ++ str_de_bool (valido a)
             ++ py ", nivel=" ++ str_de_entero (nivel a)
             ++ py ", refrescos=" ++ str_de_entero (refrescos_comprados a))
          ++ py ")")
         :: map (fun error => indentacion ++ py "  ERROR: " ++ error)
              (errores a)
     else [indentacion ++ sim])
    ++ flat_map (fun hijo => lineas_indentadas hijo (nivel_ + 1)) hs
  end.

(** The lines of [imprimir_arbol_visual]. *)
Fixpoint lineas_visuales (nodo : Nodo) (prefijo : str)
    (es_ultimo es_raiz : bool) {struct nodo} : list str :=
  match nodo with
  | mkNodo sim tip hs a =>
    let linea_actual :=
      if es_raiz then []
      else prefijo ++ (if es_ultimo then py "└── " else py "├── ") in
    let sangria := prefijo ++ (if es_ultimo then py "    " else py "│   ") in
    let nuevo_prefijo := if es_raiz then [] else sangria in
    (if str_eqb tip no_terminal then
       (linea_actual ++ sim ++
          (py "[saldo=" ++ str_de_entero (saldo a)
             ++ py ", valido=" ++ str_de_bool (valido a)
             ++ py ", nivel=" ++ str_de_entero (nivel a)
             ++ py ", refrescos=" ++ str_de_entero (refrescos_comprados a)
             ++ py "]"))
         :: map (fun error => sangria ++ py "⚠ ERROR: " ++ error) (errores a)
     else [linea_actual ++ sim])
    ++ (fix de_hijos (l : list Nodo) : list str :=
          match l with
          | [] => []
          | hijo :: r =>
              lineas_visuales hijo nuevo_prefijo
                (match r with [] => true | _ => false end) false
                ++ de_hijos r
          end) hs
  end.

(** Nodes plus diagnostics of the non terminal nodes. *)
Definition cuenta_lineas (n : Nodo) : nat :=
  (List.length (nodos n)
   + List.length
       (flat_map n_errores
          (filter (fun m => str_eqb (tipo m) no_terminal) (nodos n))))%nat.


(** [p in s] for two strings. *)
Fixpoint contiene (p s : str) : bool :=
  es_prefijo p s
  || match s with
     | [] => false
     | _ :: r => contiene p r
     end.

(** White space in the sense of [str.strip]. *)
Definition en_blanco (s : str) : Prop :=
  Forall (fun c => es_espacio_blanco c = true) s.


(** What the lemma on [errores_globales] within three levels says of
    one content. *)
Definition sin_globales (f : nat) (s : str) : Prop :=
  forall eg padre tip at_ a0 nivel_,
    nivel_ + profundidad_maxima s <= 3 ->
    snd (_decorar_arbol eg padre (mkNodo (py "C") tip (bucle f s) at_)
           a0 nivel_) = eg.

(* ================================================================== *)
(** ** Basic facts *)
(* ================================================================== *)

Lemma con_hijos_nuevo (sim tip : str) (hs : list Nodo) :
  con_hijos (Nodo_nuevo sim tip) hs = mkNodo sim tip hs atributos_iniciales.
Proof.
  unfold con_hijos, Nodo_nuevo.
  change hs with ([] ++ hs) at 2.
  generalize (@nil Nodo) as acc.
  induction hs as [|h hs IH]; intros acc; simpl.
  - rewrite app_nil_r. reflexivity.
  - unfold agregar_hijo at 2. simpl. rewrite IH, <- app_assoc. reflexivity.
Qed.

Lemma str_eqb_eq (a b : str) : str_eqb a b = true <-> a = b.
Proof.
  revert b; induction a as [|x a IH]; intros [|y b]; simpl;
    try (split; [discriminate | congruence]); try tauto.
  unfold car_eqb. rewrite andb_true_iff, N.eqb_eq, IH.
  split; [intros [-> ->]; reflexivity | intros H; inversion H; auto].
Qed.

Lemma str_eqb_refl (a : str) : str_eqb a a = true.
Proof. apply str_eqb_eq; reflexivity. Qed.

Lemma Forall_nodos (Q : Nodo -> Prop) (n : Nodo) :
  Forall Q (nodos n) <-> Q n /\ Forall Q (flat_map nodos (hijos n)).
Proof.
  destruct n; simpl.
  split; intros H; [inversion H; auto | constructor; tauto].
Qed.

(* ================================================================== *)
(** ** strip *)
(* ================================================================== *)

Lemma lstrip_cabeza (s : str) (c : caracter) (r : str) :
  lstrip s = c :: r -> es_espacio_blanco c = false.
Proof.
  induction s as [|x s IH]; simpl; [discriminate |].
  destruct (es_espacio_blanco x) eqn:E; [exact IH |].
  intros H; inversion H; subst; exact E.
Qed.

Lemma lstrip_In (s : str) (c : caracter) : In c (lstrip s) -> In c s.
Proof.
  induction s as [|x s IH]; simpl; [tauto |].
  destruct (es_espacio_blanco x); simpl; tauto.
Qed.

(** A non empty [strip] contains a character that is not white space. *)
Lemma strip_no_vacio (s : str) :
  strip s <> [] -> exists c, In c s /\ es_espacio_blanco c = false.
Proof.
  unfold strip. intros H.
  destruct (lstrip (rev (lstrip s))) as [|c r] eqn:E; [exfalso; apply H; reflexivity |].
  exists c. split.
  - apply lstrip_In, In_rev. apply lstrip_In. rewrite E. left; reflexivity.
  - eapply lstrip_cabeza; eassumption.
Qed.

Lemma espacio_es_blanco (c : caracter) :
  car_eqb c (car " ") = true -> es_espacio_blanco c = true.
Proof.
  unfold car_eqb. rewrite N.eqb_eq. intros ->. reflexivity.
Qed.

(* ================================================================== *)
(** ** The tree builder *)
(* ================================================================== *)

Lemma buscar_cierre_length (s : str) : forall nivel_,
  (List.length (fst (buscar_cierre nivel_ s)) <= List.length s)%nat /\
  (List.length (snd (buscar_cierre nivel_ s)) <= List.length s)%nat.
Proof.
  induction s as [|c r IH]; intros nivel_; simpl; [lia |].
  destruct (nivel_ >? 0); simpl; [| lia].
  match goal with |- context [buscar_cierre ?n r] =>
    specialize (IH n); destruct (buscar_cierre n r) end.
  simpl in *. lia.
Qed.

Lemma rebanada_length (s : str) :
  (List.length (rebanada_1_m1 s) <= List.length s - 1)%nat.
Proof.
  unfold rebanada_1_m1. destruct s as [|c r]; simpl; [lia |].
  rewrite Nat.sub_0_r.
  induction r as [|x r IH]; simpl; [lia |].
  destruct r; simpl in *; lia.
Qed.

(** One iteration of the loop, with the nodes written out. *)
Lemma bucle_eq (f : nat) (char : caracter) (sig : str) :
  bucle (S f) (char :: sig) =
  if car_eqb char (car " ") then bucle f sig
  else
    let '(hijos_a, resto') :=
      if pertenece char (py "$R<") then
        ([mkNodo [char] terminal [] atributos_iniciales], sig)
      else if car_eqb char (car "{") then
        ([mkNodo (py "{") terminal [] atributos_iniciales;
          mkNodo (py "C") no_terminal
            (match rebanada_1_m1 (char :: fst (buscar_cierre 1 sig)) with
             | [] => [epsilon]
             | _ => bucle f (rebanada_1_m1 (char :: fst (buscar_cierre 1 sig)))
             end) atributos_iniciales;
          mkNodo (py "}") terminal [] atributos_iniciales],
         snd (buscar_cierre 1 sig))
      else ([], sig) in
    [mkNodo (py "A") no_terminal hijos_a atributos_iniciales;
     mkNodo (py "C") no_terminal
       (match strip resto' with
        | [] => [epsilon]
        | _ => bucle f resto'
        end) atributos_iniciales].
Proof.
  cbn [bucle].
  destruct (car_eqb char (car " ")); [reflexivity |].
  destruct (pertenece char (py "$R<")).
  { destruct (strip sig); rewrite ?con_hijos_nuevo; reflexivity. }
  destruct (car_eqb char (car "{")).
  { destruct (buscar_cierre 1 sig) as [dentro fuera]. cbn [fst snd].
    destruct (strip fuera); rewrite ?con_hijos_nuevo; reflexivity. }
  destruct (strip sig); rewrite ?con_hijos_nuevo; reflexivity.
Qed.

(** [length resto] iterations are enough: more fuel gives the same
    children. *)
Lemma bucle_combustible (f1 : nat) : forall f2 resto,
  (List.length resto <= f1)%nat -> (List.length resto <= f2)%nat ->
  bucle f1 resto = bucle f2 resto.
Proof.
  induction f1 as [|f1 IH]; intros f2 resto H1 H2.
  { destruct resto; [destruct f2; reflexivity | simpl in H1; lia]. }
  destruct resto as [|char sig]; [destruct f2; reflexivity |].
  destruct f2 as [|f2]; [simpl in H2; lia |].
  simpl in H1, H2. rewrite !bucle_eq.
  pose proof (buscar_cierre_length sig 1) as [Hd Hf].
  pose proof (rebanada_length (char :: fst (buscar_cierre 1 sig))) as Hr.
  simpl in Hr.
  destruct (car_eqb char (car " ")); [apply IH; lia |].
  destruct (pertenece char (py "$R<")).
  { destruct (strip sig); [reflexivity |].
    rewrite (IH f2 sig); [reflexivity | lia | lia]. }
  destruct (car_eqb char (car "{")).
  { rewrite (IH f2 (rebanada_1_m1 (char :: fst (buscar_cierre 1 sig)))) by lia.
    destruct (strip (snd (buscar_cierre 1 sig))); [reflexivity |].
    rewrite (IH f2 (snd (buscar_cierre 1 sig))) by lia. reflexivity. }
  destruct (strip sig); [reflexivity |]. rewrite (IH f2 sig); [reflexivity | lia | lia].
Qed.

(** The nested call [self._procesar_contenido(nodo_c_interno,
    contenido_interno)] inside the loop is the function itself. *)
Lemma llamada_recursiva (f : nat) (contenido : str) :
  (List.length contenido <= f)%nat ->
  match contenido with [] => [epsilon] | _ => bucle f contenido end
  = _procesar_contenido contenido.
Proof.
  intros H. unfold _procesar_contenido.
  destruct contenido as [|c r]; [reflexivity |].
  apply bucle_combustible; [exact H | lia].
Qed.

Lemma arbol_fresco_nodo (sim tip : str) (hs : list Nodo) :
  Forall arbol_fresco hs ->
  arbol_fresco (mkNodo sim tip hs atributos_iniciales).
Proof.
  intros H. apply Forall_nodos. split; [reflexivity |]. cbn [hijos].
  apply Forall_flat_map. exact H.
Qed.

Lemma arbol_fresco_hoja (sim tip : str) :
  arbol_fresco (mkNodo sim tip [] atributos_iniciales).
Proof. apply arbol_fresco_nodo. constructor. Qed.

(** Every node that the builder creates has its initial attributes. *)
Lemma bucle_fresco (f : nat) : forall resto,
  Forall arbol_fresco (bucle f resto).
Proof.
  assert (Heps : Forall arbol_fresco [epsilon]).
  { constructor; [apply arbol_fresco_hoja | constructor]. }
  induction f as [|f IH]; intros resto; [constructor |].
  destruct resto as [|char sig]; [constructor |].
  rewrite bucle_eq.
  destruct (car_eqb char (car " ")); [apply IH |].
  assert (Hc : forall s, Forall arbol_fresco
            (match s with [] => [epsilon] | _ => bucle f s end)).
  { intros s. destruct s; [exact Heps | apply IH]. }
  assert (Hc' : forall s, Forall arbol_fresco
            (match strip s with [] => [epsilon] | _ => bucle f s end)).
  { intros s. destruct (strip s); [exact Heps | apply IH]. }
  destruct (pertenece char (py "$R<")).
  { constructor; [| constructor; [| constructor]].
    - apply arbol_fresco_nodo.
      constructor; [apply arbol_fresco_hoja | constructor].
    - apply arbol_fresco_nodo, Hc'. }
  destruct (car_eqb char (car "{")).
  { constructor; [| constructor; [| constructor]].
    - apply arbol_fresco_nodo.
      constructor; [apply arbol_fresco_hoja |].
      constructor; [apply arbol_fresco_nodo, Hc |].
      constructor; [apply arbol_fresco_hoja | constructor].
    - apply arbol_fresco_nodo, Hc'. }
  constructor; [| constructor; [| constructor]].
  - apply arbol_fresco_hoja.
  - apply arbol_fresco_nodo, Hc'.
Qed.

Lemma construir_arbol_eq (cadena : str) :
  _construir_arbol cadena =
  mkNodo (py "P") no_terminal
    [mkNodo (py "{") terminal [] atributos_iniciales;
     mkNodo (py "C") no_terminal
       (_procesar_contenido (strip (rebanada_1_m1 cadena)))
       atributos_iniciales;
     mkNodo (py "}") terminal [] atributos_iniciales]
    atributos_iniciales.
Proof. unfold _construir_arbol. rewrite !con_hijos_nuevo. reflexivity. Qed.

Lemma procesar_contenido_fresco (contenido : str) :
  Forall arbol_fresco (_procesar_contenido contenido).
Proof.
  unfold _procesar_contenido.
  destruct contenido; [| apply bucle_fresco].
  constructor; [apply arbol_fresco_hoja | constructor].
Qed.

Lemma construir_arbol_fresco (cadena : str) :
  arbol_fresco (_construir_arbol cadena).
Proof.
  rewrite construir_arbol_eq.
  apply arbol_fresco_nodo.
  constructor; [apply arbol_fresco_hoja |].
  constructor; [apply arbol_fresco_nodo, procesar_contenido_fresco |].
  constructor; [apply arbol_fresco_hoja | constructor].
Qed.

(** A loop that still has a character other than a space to read builds
    a chain that ends in [ε]. *)
Lemma bucle_cerrada (f : nat) : forall resto,
  (List.length resto <= f)%nat ->
  (exists c, In c resto /\ es_espacio_blanco c = false) ->
  cadena_cerrada (bucle f resto).
Proof.
  induction f as [|f IH]; intros resto Hlen (c & Hin & Hc).
  { destruct resto; [destruct Hin | simpl in Hlen; lia]. }
  destruct resto as [|char sig]; [destruct Hin |].
  simpl in Hlen. rewrite bucle_eq.
  destruct (car_eqb char (car " ")) eqn:Hesp.
  { apply IH; [lia |]. exists c. split; [| exact Hc].
    destruct Hin as [-> | Hin]; [| exact Hin].
    apply espacio_es_blanco in Hesp. congruence. }
  assert (Hsig : forall (nodo_a : Nodo) (s : str),
             (List.length s <= List.length sig)%nat ->
             cadena_cerrada
               [nodo_a;
                mkNodo (py "C") no_terminal
                  (match strip s with [] => [epsilon] | _ => bucle f s end)
                  atributos_iniciales]).
  { intros nodo_a s Hs. constructor.
    destruct (strip s) eqn:Es; [constructor |].
    apply IH; [lia |].
    apply strip_no_vacio. rewrite Es. discriminate. }
  pose proof (buscar_cierre_length sig 1) as [_ Hf].
  destruct (pertenece char (py "$R<")); [apply Hsig; lia |].
  destruct (car_eqb char (car "{")); apply Hsig; lia.
Qed.

Lemma strip_tiene_ficha (s : str) :
  strip s <> [] -> exists c, In c (strip s) /\ es_espacio_blanco c = false.
Proof.
  unfold strip. intros H.
  destruct (lstrip (rev (lstrip s))) as [|x l] eqn:E;
    [exfalso; apply H; reflexivity |].
  exists x. split.
  - apply in_rev. rewrite rev_involutive. left; reflexivity.
  - eapply lstrip_cabeza; eassumption.
Qed.

Lemma procesar_contenido_cerrada (s : str) :
  cadena_cerrada (_procesar_contenido (strip s)).
Proof.
  unfold _procesar_contenido.
  destruct (strip s) as [|c r] eqn:E; [constructor |].
  apply bucle_cerrada; [lia |].
  rewrite <- E. apply strip_tiene_ficha. rewrite E. discriminate.
Qed.

Lemma no_excede_nivel (nivel_ : Z) : nivel_ <= 3 -> (nivel_ >? 3) = false.
Proof. intros H. rewrite Z.gtb_ltb. apply Z.ltb_ge. lia. Qed.

(* ================================================================== *)
(** ** One step of the decoration *)
(* ================================================================== *)

(** The depth gate. *)
Lemma decorar_limite (eg : list str) (padre : option Atributos)
    (sim tip : str) (hs : list Nodo) (at_ a0 : Atributos) (nivel_ : Z) :
  3 < nivel_ ->
  _decorar_arbol eg padre (mkNodo sim tip hs at_) a0 nivel_ =
  (mkNodo sim tip hs
     (mkAtributos (saldo a0) false nivel_ (refrescos_comprados a0)
        (errores a0 ++ [msg_limite_nodo nivel_])),
   eg ++ [msg_limite]).
Proof.
  intros H. cbn [_decorar_arbol].
  replace (nivel_ >? 3) with true by (symmetry; apply Z.gtb_lt; lia).
  reflexivity.
Qed.

(** [C -> A C] *)
Lemma decorar_C_AC (eg : list str) (padre : option Atributos) (tip : str)
    (nodo_a nodo_c : Nodo) (at_ a0 : Atributos) (nivel_ : Z) :
  nivel_ <= 3 ->
  _decorar_arbol eg padre (mkNodo (py "C") tip [nodo_a; nodo_c] at_) a0 nivel_ =
  let ra :=
    _decorar_arbol eg (Some (con_nivel a0 nivel_)) nodo_a (atributos nodo_a) nivel_ in
  let a1 :=
    mkAtributos (n_saldo (fst ra)) (n_valido (fst ra)) nivel_
      (n_refrescos (fst ra)) (errores a0 ++ n_errores (fst ra)) in
  let rc :=
    _decorar_arbol (snd ra) (Some a1) nodo_c
      (con_refrescos (con_saldo (atributos nodo_c) (n_saldo (fst ra)))
         (n_refrescos (fst ra))) nivel_ in
  (mkNodo (py "C") tip [fst ra; fst rc]
     (mkAtributos (n_saldo (fst rc)) (n_valido (fst ra) && n_valido (fst rc))
        nivel_ (n_refrescos (fst rc))
        ((errores a0 ++ n_errores (fst ra)) ++ n_errores (fst rc))),
   snd rc).
Proof.
  intros H. cbn [_decorar_arbol]. rewrite (no_excede_nivel nivel_ H).
  change (str_eqb (py "C") (py "P")) with false.
  change (str_eqb (py "C") (py "C")) with true. cbv iota zeta.
  destruct (_decorar_arbol eg _ nodo_a _ nivel_) as [nodo_a' eg1]. cbn [fst snd].
  match goal with
  | |- context [_decorar_arbol eg1 ?p nodo_c ?s nivel_] =>
      change (_decorar_arbol eg1 p nodo_c s nivel_)
        with (_decorar_arbol eg1
                (Some (mkAtributos (n_saldo nodo_a') (n_valido nodo_a') nivel_
                         (n_refrescos nodo_a') (errores a0 ++ n_errores nodo_a')))
                nodo_c
                (con_refrescos (con_saldo (atributos nodo_c) (n_saldo nodo_a'))
                   (n_refrescos nodo_a')) nivel_)
  end.
  destruct (_decorar_arbol eg1 _ nodo_c _ nivel_) as [nodo_c' eg2].
  reflexivity.
Qed.

(** [C -> ε] *)
Lemma decorar_C_eps (eg : list str) (padre : option Atributos) (tip : str)
    (h : Nodo) (at_ a0 : Atributos) (nivel_ : Z) :
  nivel_ <= 3 -> simbolo h = py "ε" ->
  _decorar_arbol eg padre (mkNodo (py "C") tip [h] at_) a0 nivel_ =
  (mkNodo (py "C") tip [h] (mkAtributos 0 true nivel_ 0 (errores a0)), eg).
Proof.
  intros H He. cbn [_decorar_arbol]. rewrite (no_excede_nivel nivel_ H), He.
  reflexivity.
Qed.

(** [P -> { C }] *)
Lemma decorar_P (eg : list str) (padre : option Atributos) (tip : str)
    (h0 nodo_c : Nodo) (mas : list Nodo) (at_ a0 : Atributos) (nivel_ : Z) :
  nivel_ <= 3 ->
  _decorar_arbol eg padre (mkNodo (py "P") tip (h0 :: nodo_c :: mas) at_) a0 nivel_ =
  let rc :=
    _decorar_arbol eg (Some (con_nivel a0 nivel_)) nodo_c (atributos nodo_c) nivel_ in
  (mkNodo (py "P") tip (h0 :: fst rc :: mas)
     (mkAtributos (n_saldo (fst rc)) (n_valido (fst rc)) nivel_
        (n_refrescos (fst rc)) (errores a0 ++ n_errores (fst rc))),
   snd rc).
Proof.
  intros H. cbn [_decorar_arbol]. rewrite (no_excede_nivel nivel_ H).
  change (str_eqb (py "P") (py "P")) with true. cbv iota zeta.
  destruct (_decorar_arbol eg _ nodo_c _ nivel_) as [nodo_c' eg1].
  reflexivity.
Qed.

(** [A -> { C }] *)
Lemma decorar_A_bloque (eg : list str) (padre : option Atributos) (tip : str)
    (llave_izq nodo_c llave_der : Nodo) (at_ a0 : Atributos) (nivel_ : Z) :
  nivel_ <= 3 ->
  _decorar_arbol eg padre
    (mkNodo (py "A") tip [llave_izq; nodo_c; llave_der] at_) a0 nivel_ =
  let rc :=
    _decorar_arbol eg (Some (con_nivel a0 nivel_)) nodo_c (atributos nodo_c)
      (nivel_ + 1) in
  (mkNodo (py "A") tip [llave_izq; fst rc; llave_der]
     (mkAtributos (saldo_del_padre padre) (n_valido (fst rc)) nivel_
        (refrescos_del_padre padre) (errores a0 ++ n_errores (fst rc))),
   snd rc).
Proof.
  intros H. cbn [_decorar_arbol]. rewrite (no_excede_nivel nivel_ H).
  change (str_eqb (py "A") (py "P")) with false.
  change (str_eqb (py "A") (py "C")) with false.
  change (str_eqb (py "A") (py "A")) with true. cbv iota zeta.
  destruct (_decorar_arbol eg _ nodo_c _ (nivel_ + 1)) as [nodo_c' eg1].
  reflexivity.
Qed.

(** [A -> R] *)
Lemma decorar_A_compra (eg : list str) (padre : option Atributos) (tip : str)
    (hijo : Nodo) (at_ a0 : Atributos) (nivel_ : Z) :
  nivel_ <= 3 -> simbolo hijo = py "R" ->
  _decorar_arbol eg padre (mkNodo (py "A") tip [hijo] at_) a0 nivel_ =
  (mkNodo (py "A") tip [hijo]
     (if saldo_del_padre padre <? 3 then
        mkAtributos (saldo_del_padre padre) false nivel_
          (refrescos_del_padre padre)
          (errores a0 ++ [msg_saldo (saldo_del_padre padre)])
      else if refrescos_del_padre padre >=? 3 then
        mkAtributos (saldo_del_padre padre) false nivel_
          (refrescos_del_padre padre) (errores a0 ++ [msg_maximo])
      else
        mkAtributos (saldo_del_padre padre - 3) true nivel_
          (refrescos_del_padre padre + 1) (errores a0)),
   eg).
Proof.
  intros H He. cbn [_decorar_arbol]. rewrite (no_excede_nivel nivel_ H), He.
  change (str_eqb (py "A") (py "P")) with false.
  change (str_eqb (py "A") (py "C")) with false.
  change (str_eqb (py "A") (py "A")) with true.
  change (str_eqb (py "R") (py "$")) with false.
  change (str_eqb (py "R") (py "R")) with true. cbv iota zeta.
  destruct (saldo_del_padre padre <? 3); [reflexivity |].
  destruct (refrescos_del_padre padre >=? 3); reflexivity.
Qed.

(** The [C] node at the head of a closed chain ends the decoration with
    both counters at 0: the value written by [C -> ε] is copied back
    along the whole chain. *)
Lemma decorar_cadena_cerrada (hs : list Nodo) :
  cadena_cerrada hs ->
  forall eg padre tip at_ a0 nivel_,
    nivel_ <= 3 ->
    n_saldo (fst (_decorar_arbol eg padre (mkNodo (py "C") tip hs at_) a0 nivel_)) = 0
    /\ n_refrescos
         (fst (_decorar_arbol eg padre (mkNodo (py "C") tip hs at_) a0 nivel_)) = 0.
Proof.
  induction 1 as [|nodo_a tip' hs' a' Hc IH];
    intros eg padre tip at_ a0 nivel_ Hn.
  - rewrite decorar_C_eps by (auto; reflexivity). split; reflexivity.
  - rewrite decorar_C_AC by exact Hn. cbv zeta. cbn [fst].
    apply IH. exact Hn.
Qed.

(* ================================================================== *)
(** ** The counters stay in range *)
(* ================================================================== *)

Lemma rango_raiz n : Forall nodo_en_rango (nodos n) -> en_rango (atributos n).
Proof. intros H. apply Forall_nodos in H. apply H. Qed.

Ltac simplificar_atributos :=
  cbn [atributos saldo valido nivel refrescos_comprados errores
       con_saldo con_valido con_nivel con_refrescos con_errores
       n_saldo n_valido n_nivel n_refrescos n_errores
       fst snd hijos simbolo tipo] in *.

Ltac resolver_llamadas :=
  repeat match goal with
         | e : _decorar_arbol ?eg ?p ?n ?a ?l = _,
           IH : context [_decorar_arbol ?eg ?p ?n ?a ?l] |- _ =>
             rewrite e in IH; cbn [fst snd] in IH
         end.

Ltac rango_aritmetica :=
  unfold nodo_en_rango, padre_en_rango, saldo_del_padre, refrescos_del_padre in *;
  repeat match goal with
         | p : option Atributos |- _ => destruct p
         end;
  cbv beta iota in *;
  unfold en_rango, n_saldo, n_refrescos in *;
  simplificar_atributos;
  repeat match goal with
         | H : (_ <? _) = true |- _ => apply Z.ltb_lt in H
         | H : (_ <? _) = false |- _ => apply Z.ltb_ge in H
         | H : (_ >=? _) = false |- _ => rewrite Z.geb_leb in H; apply Z.leb_gt in H
         end;
  try lia.

Ltac rango_hijos :=
  repeat match goal with
         | H : _ /\ _ |- _ => destruct H
         | H : Forall nodo_en_rango (_ ++ _) |- _ => apply Forall_app in H
         end;
  repeat match goal with
         | H : Forall nodo_en_rango (nodos ?n) |- _ =>
             lazymatch goal with
             | _ : en_rango (atributos n) |- _ => fail
             | _ => pose proof (rango_raiz n H)
             end
         end.

Lemma decorar_en_rango eg padre nodo a0 nivel_ :
  Forall nodo_en_rango (nodos nodo) -> en_rango a0 -> padre_en_rango padre ->
  Forall nodo_en_rango (nodos (fst (_decorar_arbol eg padre nodo a0 nivel_))).
Proof.
  functional induction (_decorar_arbol eg padre nodo a0 nivel_); intros Hn Ha Hp;
    resolver_llamadas; cbn [fst];
    apply Forall_nodos in Hn; apply Forall_nodos;
    cbn [hijos flat_map atributos] in *; rewrite ?app_nil_r in *.
  all: rango_hijos.
  all: repeat match goal with
       | IH : _ -> _ -> _ -> Forall nodo_en_rango (nodos ?n) |- _ =>
           let H := fresh "Hdec" in
           assert (H : Forall nodo_en_rango (nodos n))
             by (apply IH; [assumption | rango_aritmetica | rango_aritmetica]);
           clear IH; pose proof (rango_raiz n H)
       end.
  all: (split; [rango_aritmetica | repeat (apply Forall_app; split); auto ]).
Qed.

(* ================================================================== *)
(** ** Decoration of a tree as it is built *)
(* ================================================================== *)

Lemma frescos_no_exceden (l : list Nodo) :
  Forall fresco l -> filter excede l = [].
Proof.
  induction 1 as [|n l Hn _ IH]; [reflexivity |].
  simpl. unfold excede, n_nivel at 1. rewrite Hn. simpl. exact IH.
Qed.

Lemma frescos_sin_errores (l : list Nodo) :
  Forall arbol_fresco l -> flat_map n_errores l = [].
Proof.
  induction 1 as [|n l Hn _ IH]; [reflexivity |].
  simpl. rewrite IH. apply Forall_nodos in Hn. destruct Hn as [Hn _].
  unfold n_errores. rewrite Hn. reflexivity.
Qed.

Lemma fresco_bien_decorado (n : Nodo) :
  arbol_fresco n -> Forall bien_decorado (nodos n).
Proof.
  induction n as [sim tip hs a IH] using Nodo_ind. intros H.
  apply Forall_nodos in H. destruct H as [Hr Hh]. cbn [hijos] in Hh.
  apply Forall_nodos. cbn [hijos]. split.
  - split.
    + unfold excede, n_nivel. rewrite Hr. discriminate.
    + intros _ _. unfold n_errores. rewrite Hr. cbn [hijos].
      symmetry. apply frescos_sin_errores. apply Forall_flat_map. exact Hh.
  - apply Forall_flat_map. apply Forall_flat_map in Hh.
    rewrite Forall_forall in *. intros x Hx. apply IH; auto. apply Hh; auto.
Qed.

Lemma frescos_bien_decorados (l : list Nodo) :
  Forall fresco (flat_map nodos l) -> Forall bien_decorado (flat_map nodos l).
Proof.
  intros H. apply Forall_flat_map. apply Forall_flat_map in H.
  rewrite Forall_forall in *. intros x Hx. apply fresco_bien_decorado.
  apply H. exact Hx.
Qed.

Lemma fresco_sin_errores (n : Nodo) : arbol_fresco n -> n_errores n = [].
Proof.
  intros H. apply Forall_nodos in H. destruct H as [H _].
  unfold n_errores. rewrite H. reflexivity.
Qed.

Lemma frescos_sin_errores' (l : list Nodo) :
  Forall fresco (flat_map nodos l) -> flat_map n_errores l = [].
Proof. intros H. apply frescos_sin_errores, Forall_flat_map, H. Qed.

Lemma cuenta_excede_nodo (sim tip : str) (hs : list Nodo) (a : Atributos) :
  cuenta_excede (mkNodo sim tip hs a) =
  ((if nivel a >? 3 then 1 else 0)
   + List.length (filter excede (flat_map nodos hs)))%nat.
Proof.
  unfold cuenta_excede. cbn [nodos hijos filter].
  unfold excede at 1, n_nivel. cbn [atributos].
  destruct (nivel a >? 3); reflexivity.
Qed.

Ltac usar_IH_fresco :=
  repeat match goal with
         | IH : arbol_fresco ?n -> _ -> _ /\ _ |- _ =>
             let Hb := fresh "Hbien" in
             let He := fresh "Heg" in
             destruct IH as [Hb He];
             [ assumption
             | simplificar_atributos;
               match goal with
               | H : arbol_fresco n |- _ =>
                   apply (fresco_sin_errores n H)
               end
             | ]
         end.

Ltac frescos_fuera :=
  repeat match goal with
         | H : arbol_fresco ?n |- context [filter excede (nodos ?n)] =>
             rewrite (frescos_no_exceden (nodos n) H)
         | H : Forall fresco (flat_map nodos ?l)
           |- context [filter excede (flat_map nodos ?l)] =>
             rewrite (frescos_no_exceden _ H)
         | H : arbol_fresco ?n |- context [n_errores ?n] =>
             rewrite (fresco_sin_errores n H)
         | H : Forall fresco (flat_map nodos ?l)
           |- context [flat_map n_errores ?l] =>
             rewrite (frescos_sin_errores' l H)
         end.

Ltac contar_excede :=
  rewrite cuenta_excede_nodo; simplificar_atributos;
  match goal with e : (_ >? 3) = _ |- _ => rewrite e end;
  cbn [flat_map]; rewrite ?app_nil_r, ?filter_app, ?length_app;
  frescos_fuera;
  unfold cuenta_excede in *;
  repeat match goal with
         | He : ?e = _ ++ repeat msg_limite _ |- _ => rewrite He; clear He
         end;
  rewrite <- ?app_assoc, <- ?repeat_app; cbn [List.length];
  rewrite ?Nat.add_0_r, ?Nat.add_0_l, ?app_nil_r; try reflexivity.

Ltac raiz_bien_decorada :=
  unfold bien_decorado, excede, n_nivel, n_valido, descendientes;
  simplificar_atributos;
  match goal with e : (_ >? 3) = _ |- _ => rewrite e end;
  split;
  [ intros Hex; try discriminate Hex
  | intros Hex Hsimple; try discriminate Hex;
    try (unfold accion_simple in Hsimple;
         cbn [simbolo hijos List.length Nat.eqb] in Hsimple;
         match goal with
         | e : str_eqb _ (py "A") = true |- _ => rewrite e in Hsimple
         end;
         discriminate Hsimple) ].

Lemma decorar_fresco eg padre nodo a0 nivel_ :
  arbol_fresco nodo -> errores a0 = [] ->
  Forall bien_decorado (nodos (fst (_decorar_arbol eg padre nodo a0 nivel_))) /\
  snd (_decorar_arbol eg padre nodo a0 nivel_) =
    eg ++ repeat msg_limite
            (cuenta_excede (fst (_decorar_arbol eg padre nodo a0 nivel_))).
Proof.
  functional induction (_decorar_arbol eg padre nodo a0 nivel_); intros Hn Ha;
    resolver_llamadas; cbn [fst snd];
    apply Forall_nodos in Hn; destruct Hn as [Hr Hh];
    cbn [hijos flat_map atributos] in Hr, Hh; rewrite ?app_nil_r in Hh;
    repeat (apply Forall_app in Hh; let H := fresh "Hh" in destruct Hh as [H Hh]);
    repeat match goal with
           | H : Forall fresco (nodos ?n) |- _ => change (arbol_fresco n) in H
           end;
    usar_IH_fresco.
  all: split; [| contar_excede].
  all: apply Forall_nodos; split;
    [ raiz_bien_decorada
    | cbn [hijos flat_map]; rewrite ?app_nil_r;
      repeat (apply Forall_app; split);
      first [ assumption
            | apply fresco_bien_decorado; assumption
            | apply frescos_bien_decorados; assumption
            | constructor ] ].
  all: unfold n_errores; simplificar_atributos; rewrite ?Ha; cbn [flat_map app];
    change (fun n : Nodo => errores (atributos n)) with n_errores;
    repeat match goal with
           | |- context [errores (atributos ?n)] =>
               change (errores (atributos n)) with (n_errores n)
           end;
    frescos_fuera; rewrite ?app_nil_r; try reflexivity.
  repeat split. exact Hh.
Qed.

(* ================================================================== *)
(** ** The validator *)
(* ================================================================== *)

Lemma validar_agrega (self : AnalizadorSemantico) (cadena : str) :
  let r := _validar_sintaxis self cadena in
  fst r = sintaxis_valida cadena /\
  (fst r = true -> snd r = self) /\
  (fst r = false ->
   exists m, errores_globales (snd r) = errores_globales self ++ [m]).
Proof.
  unfold sintaxis_valida, _validar_sintaxis. destruct self as [eg].
  cbv zeta. cbn [errores_globales Analizador_nuevo].
  repeat match goal with
         | |- context [if ?b then _ else _] => destruct b
         | |- context [match ?x with Some _ => _ | None => _ end] => destruct x
         end;
    cbn [fst snd errores_globales];
    (split; [reflexivity | split; intros; try discriminate]);
    eauto.
Qed.

(* ================================================================== *)
(** ** analizar_cadena on an accepted string *)
(* ================================================================== *)

Lemma analizar_cadena_valida (self : AnalizadorSemantico) (cadena : str) :
  sintaxis_valida cadena = true ->
  analizar_cadena self cadena =
  let r := _decorar_arbol [] None (_construir_arbol cadena) atributos_iniciales 1 in
  ((Some (fst r),
    n_valido (fst r) && (Z.of_nat (List.length (snd r)) =? 0)),
   mkAnalizador (snd r)).
Proof.
  intros Hv. unfold analizar_cadena.
  pose proof (validar_agrega (mkAnalizador []) cadena) as (Hf & Hs & _).
  destruct (_validar_sintaxis (mkAnalizador []) cadena) as [ok self'].
  cbn [fst snd] in *. rewrite Hv in Hf. subst ok. rewrite (Hs eq_refl).
  cbn [negb errores_globales].
  replace (atributos (_construir_arbol cadena)) with atributos_iniciales
    by (rewrite construir_arbol_eq; reflexivity).
  destruct (_decorar_arbol [] None (_construir_arbol cadena) atributos_iniciales 1)
    as [raiz eg].
  reflexivity.
Qed.

(* ================================================================== *)
(** ** The builder on the strings of the grammar *)
(* ================================================================== *)

Lemma ficha_no_especial (c : caracter) :
  pertenece c (py "$R<") = true ->
  car_eqb c (car " ") = false /\ car_eqb c (car "{") = false /\
  car_eqb c (car "}") = false /\ es_espacio_blanco c = false /\
  pertenece c caracteres_validos = true /\ es_ficha [c] = true.
Proof.
  unfold pertenece.
  change (existsb (car_eqb c) (py "$R<"))
    with (car_eqb c 36%N || (car_eqb c 82%N || (car_eqb c 60%N || false))).
  unfold car_eqb. rewrite !orb_true_iff, !N.eqb_eq.
  intros [-> | [-> | [-> | H]]]; [| | | discriminate H]; repeat split.
Qed.

Lemma buscar_cierre_gramatical (s : str) :
  contenido_gramatical s ->
  forall n resto, 0 < n ->
    buscar_cierre n (s ++ resto) =
    (s ++ fst (buscar_cierre n resto), snd (buscar_cierre n resto)).
Proof.
  induction 1 as [|s _ IH|c s Hc _ IH|s1 s2 _ IH1 _ IH2]; intros n resto Hn.
  - cbn [app]. destruct (buscar_cierre n resto); reflexivity.
  - cbn [app buscar_cierre]. 
    replace (n >? 0) with true by (symmetry; apply Z.gtb_lt; lia).
    change (car_eqb (car " ") (car "{")) with false.
    change (car_eqb (car " ") (car "}")) with false. cbv iota.
    rewrite IH by lia. reflexivity.
  - destruct (ficha_no_especial c Hc) as (_ & H1 & H2 & _).
    cbn [app buscar_cierre]. 
    replace (n >? 0) with true by (symmetry; apply Z.gtb_lt; lia).
    rewrite H1, H2. rewrite IH by lia. reflexivity.
  - cbn [app buscar_cierre]. 
    replace (n >? 0) with true by (symmetry; apply Z.gtb_lt; lia).
    change (car_eqb (car "{") (car "{")) with true. cbv iota.
    rewrite <- app_assoc. rewrite IH1 by lia.
    cbn [app buscar_cierre]. 
    replace (n + 1 >? 0) with true by (symmetry; apply Z.gtb_lt; lia).
    change (car_eqb (car "}") (car "{")) with false.
    change (car_eqb (car "}") (car "}")) with true. cbv iota.
    replace (n + 1 - 1) with n by lia.
    rewrite IH2 by lia. cbn [fst snd]. rewrite <- app_assoc. reflexivity.
Qed.

Lemma buscar_cierre_bloque (s1 s2 : str) :
  contenido_gramatical s1 ->
  buscar_cierre 1 (s1 ++ car "}" :: s2) = (s1 ++ [car "}"], s2).
Proof.
  intros H. rewrite (buscar_cierre_gramatical s1 H) by lia.
  cbn [buscar_cierre]. change (1 >? 0) with true.
  change (car_eqb (car "}") (car "{")) with false.
  change (car_eqb (car "}") (car "}")) with true. cbv iota.
  change (1 - 1) with 0.
  destruct s2; reflexivity.
Qed.

Lemma hojas_no_terminal (sim : str) (hs : list Nodo) (a : Atributos) :
  hojas (mkNodo sim no_terminal hs a) = flat_map hojas hs.
Proof. destruct hs; reflexivity. Qed.

Lemma hojas_terminal (sim : str) (a : Atributos) :
  hojas (mkNodo sim terminal [] a) = [sim].
Proof. reflexivity. Qed.

Lemma blanco_no_ficha (c : caracter) :
  es_espacio_blanco c = true -> pertenece c (py "$R<") = false.
Proof.
  intros H. destruct (pertenece c (py "$R<")) eqn:E; [| reflexivity].
  destruct (ficha_no_especial c E) as (_ & _ & _ & H' & _). congruence.
Qed.

Lemma blancos_sin_fichas (s : str) :
  Forall (fun c => es_espacio_blanco c = true) s -> fichas_de_entrada s = [].
Proof.
  unfold fichas_de_entrada. induction 1 as [|c s Hc _ IH]; [reflexivity |].
  cbn [filter]. rewrite (blanco_no_ficha c Hc). exact IH.
Qed.

Lemma lstrip_nil_blancos (s : str) :
  lstrip s = [] -> Forall (fun c => es_espacio_blanco c = true) s.
Proof.
  induction s as [|c s IH]; [constructor |].
  cbn [lstrip]. destruct (es_espacio_blanco c) eqn:E; [| discriminate].
  intros H. constructor; auto.
Qed.

Lemma strip_nil_blancos (s : str) :
  strip s = [] -> Forall (fun c => es_espacio_blanco c = true) s.
Proof.
  unfold strip. intros H.
  assert (H1 : lstrip (rev (lstrip s)) = []).
  { destruct (lstrip (rev (lstrip s))) as [|x l]; [reflexivity |].
    cbn [rev] in H. destruct (rev l); discriminate H. }
  apply lstrip_nil_blancos, Forall_rev in H1. rewrite rev_involutive in H1.
  destruct (lstrip s) as [|c r] eqn:E; [apply lstrip_nil_blancos, E |].
  apply lstrip_cabeza in E. inversion H1; congruence.
Qed.

Lemma fichas_de_entrada_app (a b : str) :
  fichas_de_entrada (a ++ b) = fichas_de_entrada a ++ fichas_de_entrada b.
Proof. unfold fichas_de_entrada. rewrite filter_app, map_app. reflexivity. Qed.

Lemma fichas_de_hijos_app (a b : list Nodo) :
  fichas_de_hijos (a ++ b) = fichas_de_hijos a ++ fichas_de_hijos b.
Proof. unfold fichas_de_hijos. rewrite flat_map_app, filter_app. reflexivity. Qed.

(** The node [C] that continues a chain holds the tokens of the rest of
    the content, if the loop does on the rest. *)
Lemma fichas_del_siguiente (f : nat) (s : str) :
  fichas_de_hijos (bucle f s) = fichas_de_entrada s ->
  fichas_de_hijos
    [mkNodo (py "C") no_terminal
       (match strip s with [] => [epsilon] | _ => bucle f s end)
       atributos_iniciales]
  = fichas_de_entrada s.
Proof.
  intros H. unfold fichas_de_hijos. cbn [flat_map]. rewrite app_nil_r.
  rewrite hojas_no_terminal.
  destruct (strip s) eqn:E; [| exact H].
  rewrite blancos_sin_fichas by (apply strip_nil_blancos, E). reflexivity.
Qed.

Lemma bucle_gramatical (s : str) :
  contenido_gramatical s ->
  forall f, (List.length s <= f)%nat ->
    fichas_de_hijos (bucle f s) = fichas_de_entrada s.
Proof.
  induction 1 as [|s _ IH|c s Hc _ IH|s1 s2 H1 IH1 _ IH2]; intros f Hf.
  - destruct f; reflexivity.
  - destruct f as [|f]; [simpl in Hf; lia |]. simpl in Hf.
    rewrite bucle_eq. change (car_eqb (car " ") (car " ")) with true. cbv iota.
    rewrite IH by lia. reflexivity.
  - destruct f as [|f]; [simpl in Hf; lia |]. simpl in Hf.
    destruct (ficha_no_especial c Hc) as (He & _ & _ & _ & _ & Hfi).
    rewrite bucle_eq, He, Hc. cbv iota zeta.
    match goal with
    | |- fichas_de_hijos [?x; ?y] = _ =>
        change [x; y] with ([x] ++ [y])
    end.
    rewrite fichas_de_hijos_app, fichas_del_siguiente by (apply IH; lia).
    unfold fichas_de_hijos at 1. cbn [flat_map]. rewrite app_nil_r.
    rewrite hojas_no_terminal. cbn [flat_map]. rewrite hojas_terminal.
    cbn [app filter]. rewrite Hfi.
    unfold fichas_de_entrada. cbn [filter]. rewrite Hc. reflexivity.
  - destruct f as [|f]; [simpl in Hf; lia |]. simpl in Hf.
    rewrite length_app in Hf. simpl in Hf.
    rewrite bucle_eq.
    change (car_eqb (car "{") (car " ")) with false.
    change (pertenece (car "{") (py "$R<")) with false.
    change (car_eqb (car "{") (car "{")) with true. cbv iota.
    rewrite (buscar_cierre_bloque s1 s2 H1). cbn [fst snd].
    replace (rebanada_1_m1 (car "{" :: s1 ++ [car "}"])) with s1
      by (unfold rebanada_1_m1; cbn [tl]; rewrite removelast_last; reflexivity).
    match goal with
    | |- fichas_de_hijos [?x; ?y] = _ =>
        change [x; y] with ([x] ++ [y])
    end.
    rewrite fichas_de_hijos_app, fichas_del_siguiente by (apply IH2; lia).
    change (car "{" :: s1 ++ car "}" :: s2)
      with ([car "{"] ++ s1 ++ [car "}"] ++ s2).
    rewrite !fichas_de_entrada_app.
    change (fichas_de_entrada [car "{"]) with (@nil str).
    change (fichas_de_entrada [car "}"]) with (@nil str).
    cbn [app]. f_equal.
    unfold fichas_de_hijos. cbn [flat_map]. rewrite app_nil_r.
    rewrite hojas_no_terminal. cbn [flat_map]. rewrite !hojas_terminal.
    rewrite hojas_no_terminal, app_nil_r.
    cbn [app filter].
    change (es_ficha (py "{")) with false.
    rewrite filter_app. cbn [filter]. change (es_ficha (py "}")) with false.
    rewrite app_nil_r.
    destruct s1 as [|c1 r1]; [reflexivity |].
    apply (IH1 f). simpl in *. lia.
Qed.

(** The decoration changes attributes only: the leaves stay. *)
Lemma decorar_hojas eg padre nodo a0 nivel_ :
  hojas (fst (_decorar_arbol eg padre nodo a0 nivel_)) = hojas nodo.
Proof.
  functional induction (_decorar_arbol eg padre nodo a0 nivel_);
    resolver_llamadas; cbn [fst hojas hijos flat_map] in *;
    try reflexivity;
    repeat match goal with H : hojas _ = hojas _ |- _ => rewrite H; clear H end;
    reflexivity.
Qed.

Lemma lstrip_gramatical (s : str) :
  contenido_gramatical s -> contenido_gramatical (lstrip s).
Proof.
  induction 1 as [|s _ IH|c s Hc Hs _|s1 s2 H1 _ H2 _].
  - constructor.
  - exact IH.
  - destruct (ficha_no_especial c Hc) as (_ & _ & _ & Hb & _).
    cbn [lstrip]. rewrite Hb. constructor; assumption.
  - cbn [lstrip]. change (es_espacio_blanco (car "{")) with false. cbv iota.
    constructor; assumption.
Qed.

Lemma lstrip_app_no_blanco (a : str) (x : caracter) (b : str) :
  es_espacio_blanco x = false ->
  lstrip (rev b ++ x :: a) =
  match lstrip (rev b) with [] => x :: a | l => l ++ x :: a end.
Proof.
  intros Hx. induction (rev b) as [|c r IH]; cbn [app lstrip].
  - rewrite Hx. reflexivity.
  - destruct (es_espacio_blanco c); [exact IH | reflexivity].
Qed.

(** [rstrip]: what [strip] does at the right end. *)
Lemma rstrip_cons (c : caracter) (s : str) :
  rev (lstrip (rev (c :: s))) =
  match rev (lstrip (rev s)) with
  | [] => if es_espacio_blanco c then [] else [c]
  | r => c :: r
  end.
Proof.
  cbn [rev]. destruct (es_espacio_blanco c) eqn:Ec.
  - induction (rev s) as [|x r IH]; cbn [app lstrip].
    + rewrite Ec. reflexivity.
    + destruct (es_espacio_blanco x) eqn:Ex.
      * exact IH.
      * cbn [rev]. rewrite rev_app_distr. cbn [rev app].
        destruct (rev r ++ [x]) eqn:E; [destruct (rev r); discriminate E | reflexivity].
  - pose proof (lstrip_app_no_blanco [] c s Ec) as H. rewrite H.
    destruct (lstrip (rev s)) as [|x l]; [reflexivity |].
    rewrite rev_app_distr. cbn [rev app].
    destruct (rev l ++ [x]) eqn:E; [destruct (rev l); discriminate E | reflexivity].
Qed.

Lemma rstrip_gramatical (s : str) :
  contenido_gramatical s -> contenido_gramatical (rev (lstrip (rev s))).
Proof.
  induction 1 as [|s _ IH|c s Hc Hs IH|s1 s2 H1 _ H2 IH2].
  - constructor.
  - rewrite rstrip_cons. change (es_espacio_blanco (car " ")) with true.
    destruct (rev (lstrip (rev s))); constructor. exact IH.
  - destruct (ficha_no_especial c Hc) as (_ & _ & _ & Hb & _).
    rewrite rstrip_cons, Hb.
    destruct (rev (lstrip (rev s))); constructor; auto; constructor.
  - replace (rev (car "{" :: s1 ++ car "}" :: s2))
      with (rev s2 ++ car "}" :: rev (car "{" :: s1))
      by (change (car "{" :: s1 ++ car "}" :: s2)
            with ((car "{" :: s1) ++ car "}" :: s2);
          rewrite rev_app_distr; cbn [rev]; rewrite <- app_assoc; reflexivity).
    rewrite lstrip_app_no_blanco by reflexivity.
    destruct (lstrip (rev s2)) as [|x l] eqn:E.
    + replace (rev (car "}" :: rev (car "{" :: s1)))
        with (car "{" :: s1 ++ car "}" :: [])
        by (cbn [rev]; rewrite rev_app_distr, rev_involutive; reflexivity).
      constructor; [assumption | constructor].
    + replace (rev ((x :: l) ++ car "}" :: rev (car "{" :: s1)))
        with (car "{" :: s1 ++ car "}" :: rev (x :: l))
        by (rewrite rev_app_distr;
            change (rev (car "}" :: rev (car "{" :: s1)))
              with (rev (rev (car "{" :: s1)) ++ [car "}"]);
            rewrite rev_involutive, <- app_assoc; reflexivity).
      constructor; [assumption |]. exact IH2.
Qed.

Lemma strip_gramatical (s : str) :
  contenido_gramatical s -> contenido_gramatical (strip s).
Proof. intros H. apply rstrip_gramatical, lstrip_gramatical, H. Qed.

Lemma fichas_lstrip (s : str) :
  fichas_de_entrada (lstrip s) = fichas_de_entrada s.
Proof.
  induction s as [|c s IH]; [reflexivity |].
  cbn [lstrip]. destruct (es_espacio_blanco c) eqn:E; [| reflexivity].
  rewrite IH. unfold fichas_de_entrada. cbn [filter].
  rewrite (blanco_no_ficha c E). reflexivity.
Qed.

Lemma fichas_rev (s : str) :
  fichas_de_entrada (rev s) = rev (fichas_de_entrada s).
Proof.
  induction s as [|c s IH]; [reflexivity |].
  cbn [rev]. rewrite fichas_de_entrada_app, IH.
  unfold fichas_de_entrada. cbn [filter].
  destruct (pertenece c (py "$R<")); cbn [map rev]; [reflexivity |].
  rewrite app_nil_r. reflexivity.
Qed.

Lemma fichas_strip (s : str) :
  fichas_de_entrada (strip s) = fichas_de_entrada s.
Proof.
  unfold strip.
  rewrite fichas_rev, fichas_lstrip, fichas_rev, rev_involutive, fichas_lstrip.
  reflexivity.
Qed.

Lemma balance_gramatical (s : str) :
  contenido_gramatical s ->
  forall n resto, 0 <= n ->
    balance_llaves n (s ++ resto) = balance_llaves n resto.
Proof.
  induction 1 as [|s _ IH|c s Hc _ IH|s1 s2 _ IH1 _ IH2]; intros n resto Hn.
  - reflexivity.
  - cbn [app balance_llaves].
    change (car_eqb (car " ") (car "{")) with false.
    change (car_eqb (car " ") (car "}")) with false. cbv iota.
    apply IH, Hn.
  - destruct (ficha_no_especial c Hc) as (_ & H1 & H2 & _).
    cbn [app balance_llaves]. rewrite H1, H2. apply IH, Hn.
  - cbn [app balance_llaves].
    change (car_eqb (car "{") (car "{")) with true. cbv iota.
    rewrite <- app_assoc, IH1 by lia.
    cbn [app balance_llaves].
    change (car_eqb (car "}") (car "{")) with false.
    change (car_eqb (car "}") (car "}")) with true. cbv iota.
    replace (n + 1 - 1) with n by lia.
    replace (n <? 0) with false by (symmetry; apply Z.ltb_ge; lia).
    apply IH2, Hn.
Qed.

Lemma validos_gramatical (s : str) :
  contenido_gramatical s ->
  forall resto, primer_invalido (s ++ resto) = primer_invalido resto.
Proof.
  unfold primer_invalido.
  induction 1 as [|s _ IH|c s Hc _ IH|s1 s2 _ IH1 _ IH2]; intros resto.
  - reflexivity.
  - cbn [app find]. change (pertenece (car " ") caracteres_validos) with true.
    cbn [negb]. apply IH.
  - destruct (ficha_no_especial c Hc) as (_ & _ & _ & _ & Hv & _).
    cbn [app find]. rewrite Hv. cbn [negb]. apply IH.
  - cbn [app find]. change (pertenece (car "{") caracteres_validos) with true.
    cbn [negb]. rewrite <- app_assoc, IH1. cbn [app find].
    change (pertenece (car "}") caracteres_validos) with true.
    cbn [negb]. apply IH2.
Qed.

Lemma strip_entre_llaves (s : str) :
  strip (car "{" :: s ++ [car "}"]) = car "{" :: s ++ [car "}"].
Proof.
  unfold strip. cbn [lstrip].
  change (es_espacio_blanco (car "{")) with false. cbv iota.
  change (car "{" :: s ++ [car "}"]) with ((car "{" :: s) ++ [car "}"]).
  rewrite rev_app_distr. cbn [rev app lstrip].
  change (es_espacio_blanco (car "}")) with false. cbv iota.
  cbn [rev]. rewrite rev_app_distr, rev_involutive. reflexivity.
Qed.

Lemma gramatical_valida (cadena : str) :
  cadena_gramatical cadena -> sintaxis_valida cadena = true.
Proof.
  intros (s & Hs & ->).
  unfold sintaxis_valida, _validar_sintaxis. cbv zeta.
  rewrite strip_entre_llaves.
  cbn [startswith]. change (car_eqb (car "{") (car "{")) with true.
  unfold endswith.
  change (car "{" :: s ++ [car "}"]) with ((car "{" :: s) ++ [car "}"]).
  rewrite rev_app_distr. cbn [rev app].
  change (car_eqb (car "}") (car "}")) with true. cbn [negb orb].
  cbn [balance_llaves]. change (car_eqb (car "{") (car "{")) with true.
  cbv iota. rewrite (balance_gramatical s Hs) by lia.
  unfold primer_invalido. cbn [find].
  change (pertenece (car "{") caracteres_validos) with true. cbn [negb].
  fold (primer_invalido (s ++ [car "}"])). rewrite (validos_gramatical s Hs).
  reflexivity.
Qed.

(* ================================================================== *)
(** ** Nesting depth of the strings of the grammar *)
(* ================================================================== *)

Lemma profundidad_no_negativa (s : str) : 0 <= profundidad_maxima s.
Proof.
  induction s as [|c s IH]; cbn [profundidad_maxima]; [lia |].
  destruct (car_eqb c (car "{")); [lia |].
  destruct (car_eqb c (car "}")); lia.
Qed.

Lemma profundidad_gramatical (s : str) :
  contenido_gramatical s ->
  forall resto,
    profundidad_maxima (s ++ resto)
    = Z.max (profundidad_maxima s) (profundidad_maxima resto).
Proof.
  induction 1 as [|s _ IH|c s Hc _ IH|s1 s2 _ IH1 _ IH2]; intros resto.
  - pose proof (profundidad_no_negativa resto). cbn [app profundidad_maxima]. lia.
  - cbn [app profundidad_maxima].
    change (car_eqb (car " ") (car "{")) with false.
    change (car_eqb (car " ") (car "}")) with false. cbv iota. apply IH.
  - destruct (ficha_no_especial c Hc) as (_ & H1 & H2 & _).
    cbn [app profundidad_maxima]. rewrite H1, H2. apply IH.
  - cbn [app profundidad_maxima].
    change (car_eqb (car "{") (car "{")) with true. cbv iota.
    rewrite <- app_assoc, !IH1. cbn [app profundidad_maxima].
    change (car_eqb (car "}") (car "{")) with false.
    change (car_eqb (car "}") (car "}")) with true. cbv iota.
    rewrite IH2.
    pose proof (profundidad_no_negativa s1).
    pose proof (profundidad_no_negativa s2).
    pose proof (profundidad_no_negativa resto). lia.
Qed.

Lemma profundidad_bloque (s1 s2 : str) :
  contenido_gramatical s1 -> 
  profundidad_maxima (car "{" :: s1 ++ car "}" :: s2)
  = Z.max (1 + profundidad_maxima s1) (profundidad_maxima s2).
Proof.
  intros H1. cbn [profundidad_maxima].
  change (car_eqb (car "{") (car "{")) with true. cbv iota.
  rewrite (profundidad_gramatical s1 H1). cbn [profundidad_maxima].
  change (car_eqb (car "}") (car "{")) with false.
  change (car_eqb (car "}") (car "}")) with true. cbv iota.
  pose proof (profundidad_no_negativa s1).
  pose proof (profundidad_no_negativa s2). lia.
Qed.

Lemma blanco_no_llave (c : caracter) :
  es_espacio_blanco c = true ->
  car_eqb c (car "{") = false /\ car_eqb c (car "}") = false.
Proof.
  intros H. unfold car_eqb. split; apply N.eqb_neq; intros ->; discriminate H.
Qed.

Lemma blancos_sin_profundidad (s : str) :
  Forall (fun c => es_espacio_blanco c = true) s -> profundidad_maxima s = 0.
Proof.
  induction 1 as [|c s Hc _ IH]; [reflexivity |].
  destruct (blanco_no_llave c Hc) as [H1 H2].
  cbn [profundidad_maxima]. rewrite H1, H2. exact IH.
Qed.

Lemma profundidad_lstrip (s : str) :
  profundidad_maxima (lstrip s) = profundidad_maxima s.
Proof.
  induction s as [|c s IH]; [reflexivity |].
  cbn [lstrip]. destruct (es_espacio_blanco c) eqn:E; [| reflexivity].
  destruct (blanco_no_llave c E) as [H1 H2].
  cbn [profundidad_maxima]. rewrite H1, H2. exact IH.
Qed.

Lemma profundidad_cons (c : caracter) (s t : str) :
  profundidad_maxima s = profundidad_maxima t ->
  profundidad_maxima (c :: s) = profundidad_maxima (c :: t).
Proof. intros H. cbn [profundidad_maxima]. rewrite H. reflexivity. Qed.

Lemma profundidad_rstrip (s : str) :
  profundidad_maxima (rev (lstrip (rev s))) = profundidad_maxima s.
Proof.
  induction s as [|c s IH]; [reflexivity |].
  rewrite rstrip_cons.
  destruct (rev (lstrip (rev s))) as [|x r] eqn:E.
  - assert (Hs : Forall (fun c => es_espacio_blanco c = true) s).
    { rewrite <- (rev_involutive s). apply Forall_rev, lstrip_nil_blancos.
      destruct (lstrip (rev s)) as [|y l]; [reflexivity |].
      cbn [rev] in E. destruct (rev l); discriminate E. }
    destruct (es_espacio_blanco c) eqn:Ec.
    + symmetry. apply blancos_sin_profundidad. constructor; assumption.
    + apply profundidad_cons. symmetry. apply blancos_sin_profundidad, Hs.
  - apply profundidad_cons. exact IH.
Qed.

Lemma profundidad_strip (s : str) :
  profundidad_maxima (strip s) = profundidad_maxima s.
Proof. unfold strip. rewrite profundidad_rstrip. apply profundidad_lstrip. Qed.

(** [errores_globales] only grows during the decoration. *)
Lemma decorar_crece eg padre nodo a0 nivel_ :
  (List.length eg <= List.length (snd (_decorar_arbol eg padre nodo a0 nivel_)))%nat.
Proof.
  functional induction (_decorar_arbol eg padre nodo a0 nivel_);
    resolver_llamadas; cbn [snd] in *; rewrite ?length_app; try lia.
Qed.

Lemma profundo_no_vacio (s : str) :
  0 < profundidad_maxima s -> strip s <> [] /\ s <> [].
Proof.
  intros H. split.
  - intros E. apply strip_nil_blancos, blancos_sin_profundidad in E. lia.
  - intros ->. cbn in H. lia.
Qed.

(** A grammatical content with blocks nested deep enough makes the
    decoration of its chain reach the depth gate. *)
Lemma bucle_profundo (s : str) :
  contenido_gramatical s ->
  forall f eg padre tip at_ a0 nivel_,
    (List.length s <= f)%nat -> nivel_ <= 3 ->
    3 < nivel_ + profundidad_maxima s ->
    (List.length eg <
     List.length
       (snd (_decorar_arbol eg padre (mkNodo (py "C") tip (bucle f s) at_)
               a0 nivel_)))%nat.
Proof.
  induction 1 as [|s _ IH|c s Hc _ IH|s1 s2 H1 IH1 H2 IH2];
    intros f eg padre tip at_ a0 nivel_ Hf Hn Hp.
  - cbn in Hp. lia.
  - destruct f as [|f]; [simpl in Hf; lia |]. simpl in Hf.
    rewrite bucle_eq. change (car_eqb (car " ") (car " ")) with true. cbv iota.
    apply IH; [lia | lia |]. exact Hp.
  - destruct f as [|f]; [simpl in Hf; lia |]. simpl in Hf.
    destruct (ficha_no_especial c Hc) as (He & Hl & Hr & _).
    assert (Hp' : 3 < nivel_ + profundidad_maxima s).
    { cbn [profundidad_maxima] in Hp. rewrite Hl, Hr in Hp. exact Hp. }
    destruct (profundo_no_vacio s ltac:(lia)) as [Hs _].
    rewrite bucle_eq, He, Hc. cbv iota zeta.
    destruct (strip s) as [|x r] eqn:E; [congruence |].
    rewrite decorar_C_AC by exact Hn. cbv zeta. cbn [snd].
    eapply Nat.le_lt_trans; [apply decorar_crece |].
    apply IH; [lia | exact Hn | exact Hp'].
  - destruct f as [|f]; [simpl in Hf; lia |]. simpl in Hf.
    rewrite length_app in Hf. simpl in Hf.
    rewrite (profundidad_bloque s1 s2 H1) in Hp.
    rewrite bucle_eq.
    change (car_eqb (car "{") (car " ")) with false.
    change (pertenece (car "{") (py "$R<")) with false.
    change (car_eqb (car "{") (car "{")) with true. cbv iota.
    rewrite (buscar_cierre_bloque s1 s2 H1). cbn [fst snd].
    replace (rebanada_1_m1 (car "{" :: s1 ++ [car "}"])) with s1
      by (unfold rebanada_1_m1; cbn [tl]; rewrite removelast_last; reflexivity).
    rewrite decorar_C_AC by exact Hn. cbv zeta. cbn [snd].
    rewrite decorar_A_bloque by exact Hn. cbv zeta. cbn [fst snd].
    destruct (Z_lt_le_dec 3 (nivel_ + (1 + profundidad_maxima s1))) as [Hd | Hd].
    + eapply Nat.lt_le_trans; [| apply decorar_crece].
      destruct (Z_lt_le_dec 3 (nivel_ + 1)) as [Hg | Hg].
      * rewrite decorar_limite by exact Hg. cbn [snd].
        rewrite length_app. simpl. lia.
      * destruct (profundo_no_vacio s1 ltac:(lia)) as [_ Hs1].
        destruct s1 as [|c1 r1]; [congruence |].
        apply IH1; [simpl in *; lia | lia | lia].
    + assert (Hp2 : 3 < nivel_ + profundidad_maxima s2) by lia.
      destruct (profundo_no_vacio s2 ltac:(lia)) as [Hs2 _].
      destruct (strip s2) as [|x r] eqn:E; [congruence |].
      eapply Nat.le_lt_trans; [apply decorar_crece |].
      apply IH2; [lia | exact Hn | exact Hp2].
Qed.

(* ================================================================== *)
(** ** What the validator accepts *)
(* ================================================================== *)

Lemma balance_desplazado (s : str) : forall n m d,
  0 <= d -> balance_llaves n s = Some m ->
  balance_llaves (n + d) s = Some (m + d).
Proof.
  induction s as [|c s IH]; intros n m d Hd H; cbn [balance_llaves] in *.
  - injection H as <-. reflexivity.
  - destruct (car_eqb c (car "{")).
    + replace (n + d + 1) with (n + 1 + d) by lia. apply IH; assumption.
    + destruct (car_eqb c (car "}")); [| apply IH; assumption].
      destruct (n - 1 <? 0) eqn:E; [discriminate |].
      apply Z.ltb_ge in E.
      replace (n + d - 1 <? 0) with false by (symmetry; apply Z.ltb_ge; lia).
      replace (n + d - 1) with (n - 1 + d) by lia. apply IH; assumption.
Qed.

Lemma balance_app (a b : str) : forall n,
  0 <= n -> balance_llaves 0 a = Some 0 ->
  balance_llaves n (a ++ b) = balance_llaves n b.
Proof.
  assert (H : forall a n m, balance_llaves n a = Some m ->
            balance_llaves n (a ++ b) = balance_llaves m b).
  { clear a. induction a as [|c a IH]; intros n m Hm; cbn [app balance_llaves] in *.
    - injection Hm as <-. reflexivity.
    - destruct (car_eqb c (car "{")); [apply IH; assumption |].
      destruct (car_eqb c (car "}")); [| apply IH; assumption].
      destruct (n - 1 <? 0); [discriminate | apply IH; assumption]. }
  intros n Hn Ha.
  apply (balance_desplazado a 0 0 n Hn) in Ha. cbn in Ha.
  apply H. exact Ha.
Qed.

(** The first return of the brace level: after an opening brace the
    scan meets the brace that closes it. *)
Lemma primer_cierre (len : nat) : forall r k m,
  (List.length r <= len)%nat -> 0 <= k -> m <= k ->
  balance_llaves (k + 1) r = Some m ->
  exists s1 s2,
    r = s1 ++ car "}" :: s2 /\
    balance_llaves 0 s1 = Some 0 /\ balance_llaves k s2 = Some m.
Proof.
  induction len as [|len IH]; intros r k m Hlen Hk Hm H.
  { destruct r; [| simpl in Hlen; lia]. cbn in H. injection H as H. lia. }
  destruct r as [|c r]; [cbn in H; injection H as H; lia |].
  simpl in Hlen. cbn [balance_llaves] in H.
  destruct (car_eqb c (car "{")) eqn:Ea.
  - destruct (IH r (k + 1) m ltac:(lia) ltac:(lia) ltac:(lia) H)
      as (a & b & -> & Ha & Hb).
    rewrite length_app in Hlen. simpl in Hlen.
    destruct (IH b k m ltac:(lia) Hk Hm Hb) as (a' & b' & -> & Ha' & Hb').
    exists (c :: a ++ car "}" :: a'), b'. split; [| split; [| exact Hb']].
    + cbn [app]. rewrite <- app_assoc. reflexivity.
    + cbn [app balance_llaves]. rewrite Ea.
      rewrite (balance_app a (car "}" :: a') (0 + 1) ltac:(lia) Ha).
      cbn [balance_llaves].
      change (car_eqb (car "}") (car "{")) with false.
      change (car_eqb (car "}") (car "}")) with true. cbv iota.
      change (0 + 1 - 1 <? 0) with false. exact Ha'.
  - destruct (car_eqb c (car "}")) eqn:Eb.
    + destruct (k + 1 - 1 <? 0); [discriminate |].
      replace (k + 1 - 1) with k in H by lia.
      exists [], r. split; [| split; [reflexivity | exact H]].
      unfold car_eqb in Eb. apply N.eqb_eq in Eb. subst c. reflexivity.
    + destruct (IH r k m ltac:(lia) Hk Hm H) as (a & b & -> & Ha & Hb).
      exists (c :: a), b. split; [reflexivity | split; [| exact Hb]].
      cbn [balance_llaves]. rewrite Ea, Eb. exact Ha.
Qed.

Lemma caracter_valido (c : caracter) :
  pertenece c caracteres_validos = true ->
  c = car "{" \/ c = car "}" \/ c = car " " \/ pertenece c (py "$R<") = true.
Proof.
  unfold pertenece.
  change (existsb (car_eqb c) caracteres_validos)
    with (car_eqb c 123%N || (car_eqb c 125%N || (car_eqb c 36%N ||
          (car_eqb c 82%N || (car_eqb c 60%N || (car_eqb c 32%N || false)))))).
  change (existsb (car_eqb c) (py "$R<"))
    with (car_eqb c 36%N || (car_eqb c 82%N || (car_eqb c 60%N || false))).
  unfold car_eqb. rewrite !orb_true_iff, !N.eqb_eq.
  intros [-> | [-> | [-> | [-> | [-> | [-> | H]]]]]]; try discriminate H; auto;
    right; right; right; auto.
Qed.

Lemma primer_invalido_app (a b : str) :
  primer_invalido (a ++ b) = None ->
  primer_invalido a = None /\ primer_invalido b = None.
Proof.
  unfold primer_invalido. induction a as [|c a IH]; cbn [app find].
  - auto.
  - destruct (negb (pertenece c caracteres_validos)); [discriminate | exact IH].
Qed.

Lemma equilibrada_gramatical (len : nat) : forall s,
  (List.length s <= len)%nat ->
  primer_invalido s = None -> balance_llaves 0 s = Some 0 ->
  contenido_gramatical s.
Proof.
  induction len as [|len IH]; intros s Hlen Hv Hb.
  { destruct s; [constructor | simpl in Hlen; lia]. }
  destruct s as [|c r]; [constructor |].
  simpl in Hlen. unfold primer_invalido in Hv. cbn [find] in Hv.
  destruct (pertenece c caracteres_validos) eqn:Ec; [| discriminate Hv].
  cbn [negb] in Hv. fold (primer_invalido r) in Hv.
  destruct (caracter_valido c Ec) as [-> | [-> | [-> | Hf]]].
  - cbn [balance_llaves] in Hb.
    change (car_eqb (car "{") (car "{")) with true in Hb. cbv iota in Hb.
    destruct (primer_cierre (List.length r) r 0 0 ltac:(lia) ltac:(lia) ltac:(lia) Hb)
      as (s1 & s2 & -> & H1 & H2).
    rewrite length_app in Hlen. simpl in Hlen.
    apply primer_invalido_app in Hv. destruct Hv as [Hv1 Hv2].
    unfold primer_invalido in Hv2. cbn [find] in Hv2.
    change (pertenece (car "}") caracteres_validos) with true in Hv2.
    cbn [negb] in Hv2. fold (primer_invalido s2) in Hv2.
    apply cg_bloque; apply IH; auto; lia.
  - cbn in Hb. discriminate Hb.
  - apply cg_espacio. apply IH; [lia | exact Hv | exact Hb].
  - destruct (ficha_no_especial c Hf) as (_ & H1 & H2 & _).
    cbn [balance_llaves] in Hb. rewrite H1, H2 in Hb.
    apply cg_ficha; [exact Hf |]. apply IH; [lia | exact Hv | exact Hb].
Qed.

Lemma validar_por_strip (cadena : str) :
  sintaxis_valida cadena =
  (startswith (strip cadena) (car "{") && endswith (strip cadena) (car "}")
   && match balance_llaves 0 (strip cadena) with
      | Some n => (n =? 0)
      | None => false
      end
   && match primer_invalido (strip cadena) with
      | Some _ => false
      | None => true
      end).
Proof.
  unfold sintaxis_valida, _validar_sintaxis. cbv zeta.
  destruct (startswith (strip cadena) (car "{"));
    destruct (endswith (strip cadena) (car "}")); cbn [negb orb andb fst];
    try reflexivity.
  destruct (balance_llaves 0 (strip cadena)) as [n|]; [| reflexivity].
  destruct (n =? 0); cbn [negb fst]; [| reflexivity].
  destruct (primer_invalido (strip cadena)); reflexivity.
Qed.

Lemma validador_gramatical (cadena : str) :
  sintaxis_valida cadena = true <->
  startswith (strip cadena) (car "{") = true /\
  endswith (strip cadena) (car "}") = true /\
  contenido_gramatical (strip cadena).
Proof.
  rewrite validar_por_strip. split.
  - intros H. apply andb_prop in H. destruct H as [H Hv].
    apply andb_prop in H. destruct H as [H Hb].
    apply andb_prop in H. destruct H as [Hs He].
    split; [exact Hs | split; [exact He |]].
    destruct (balance_llaves 0 (strip cadena)) as [n|] eqn:Eb; [| discriminate].
    apply Z.eqb_eq in Hb. subst n.
    destruct (primer_invalido (strip cadena)) eqn:Ev; [discriminate |].
    apply (equilibrada_gramatical (List.length (strip cadena))); auto.
  - intros (Hs & He & Hg). rewrite Hs, He.
    pose proof (balance_gramatical _ Hg 0 [] ltac:(lia)) as Hb.
    pose proof (validos_gramatical _ Hg []) as Hv.
    rewrite app_nil_r in Hb, Hv. rewrite Hb, Hv. reflexivity.
Qed.

Lemma lstrip_blancos (a s : str) :
  Forall (fun c => es_espacio_blanco c = true) a -> lstrip (a ++ s) = lstrip s.
Proof.
  induction 1 as [|c a Hc _ IH]; [reflexivity |].
  cbn [app lstrip]. rewrite Hc. exact IH.
Qed.

Lemma lstrip_todo_blanco (a : str) :
  Forall (fun c => es_espacio_blanco c = true) a -> lstrip a = [].
Proof.
  intros H. rewrite <- (app_nil_r a). rewrite lstrip_blancos by exact H.
  reflexivity.
Qed.

Lemma lstrip_app (s b : str) :
  lstrip (s ++ b) = match lstrip s with [] => lstrip b | l => l ++ b end.
Proof.
  induction s as [|c s IH]; cbn [app lstrip].
  - destruct (lstrip b); reflexivity.
  - destruct (es_espacio_blanco c); [exact IH | reflexivity].
Qed.

Lemma strip_blancos (a s b : str) :
  Forall (fun c => es_espacio_blanco c = true) a ->
  Forall (fun c => es_espacio_blanco c = true) b ->
  strip (a ++ s ++ b) = strip s.
Proof.
  intros Ha Hb. unfold strip. rewrite lstrip_blancos by exact Ha.
  rewrite lstrip_app. rewrite (lstrip_todo_blanco b Hb).
  destruct (lstrip s) as [|x l]; [reflexivity |].
  rewrite rev_app_distr. rewrite lstrip_blancos; [reflexivity |].
  apply Forall_rev. exact Hb.
Qed.

(* ================================================================== *)
(** ** Validity and diagnostics of the decorated tree *)
(* ================================================================== *)

Lemma fresco_coherente (l : list Nodo) :
  Forall fresco l -> Forall coherente l /\ Forall nodo_valido l.
Proof.
  induction 1 as [|n l Hn _ [IH1 IH2]]; [split; constructor |].
  split; constructor; auto.
  - unfold coherente, n_valido, n_errores. rewrite Hn. split; reflexivity.
  - unfold nodo_valido, n_valido. rewrite Hn. reflexivity.
Qed.

Lemma app_nil_iff (A : Type) (l l' : list A) :
  l ++ l' = [] <-> l = [] /\ l' = [].
Proof.
  split; [apply app_eq_nil | intros [-> ->]; reflexivity].
Qed.

Ltac frescos_coherentes :=
  repeat match goal with
         | H : arbol_fresco ?n |- _ =>
             let H1 := fresh "Hfc" in
             let H2 := fresh "Hfv" in
             destruct (fresco_coherente (nodos n) H) as [H1 H2]; clear H
         | H : Forall fresco (flat_map nodos ?l) |- _ =>
             let H1 := fresh "Hfc" in
             let H2 := fresh "Hfv" in
             destruct (fresco_coherente (flat_map nodos l) H) as [H1 H2];
             clear H
         end.

Ltac raices_coherentes :=
  repeat match goal with
         | H : Forall coherente (nodos ?n) |- _ =>
             lazymatch goal with
             | _ : coherente n |- _ => fail
             | _ => pose proof (proj1 (proj1 (Forall_nodos coherente n) H))
             end
         end.

Lemma decorar_validez eg padre nodo a0 nivel_ :
  arbol_fresco nodo -> errores a0 = [] -> valido a0 = true ->
  Forall coherente (nodos (fst (_decorar_arbol eg padre nodo a0 nivel_))) /\
  (n_valido (fst (_decorar_arbol eg padre nodo a0 nivel_)) = true ->
   Forall nodo_valido (nodos (fst (_decorar_arbol eg padre nodo a0 nivel_))) /\
   snd (_decorar_arbol eg padre nodo a0 nivel_) = eg).
Proof.
  functional induction (_decorar_arbol eg padre nodo a0 nivel_); intros Hn Ha Hv;
    resolver_llamadas; cbn [fst snd];
    apply Forall_nodos in Hn; destruct Hn as [Hr Hh];
    cbn [hijos flat_map atributos] in Hr, Hh; rewrite ?app_nil_r in Hh;
    repeat (apply Forall_app in Hh; let H := fresh "Hh" in destruct Hh as [H Hh]);
    repeat match goal with
           | H : Forall fresco (nodos ?n) |- _ => change (arbol_fresco n) in H
           end.
  all: repeat match goal with
       | IH : arbol_fresco ?n -> _ -> _ -> _ /\ _ |- _ =>
           let Hc := fresh "Hcoh" in
           let Hw := fresh "Hval" in
           destruct IH as [Hc Hw];
           [ assumption
           | simplificar_atributos;
             match goal with
             | H : arbol_fresco n |- _ => apply (fresco_sin_errores n H)
             end
           | simplificar_atributos;
             match goal with
             | H : arbol_fresco n |- _ =>
                 apply Forall_nodos in H; destruct H as [H _];
                 rewrite H; reflexivity
             end
           | ]
       end.
  all: frescos_coherentes; raices_coherentes.
  all: split;
    [ apply Forall_nodos; split;
      [ | cbn [hijos flat_map]; rewrite ?app_nil_r;
          repeat (apply Forall_app; split); solve [auto | constructor] ]
    | intros Hraiz; split;
      [ apply Forall_nodos; split;
        [ exact Hraiz
        | cbn [hijos flat_map]; rewrite ?app_nil_r ]
      | ] ].
  all: unfold coherente, nodo_valido, n_valido, n_errores in *;
       simplificar_atributos; rewrite ?Ha, ?Hv in *; cbn [app] in *.
  all: try reflexivity; try discriminate;
       try solve [split; intros; first [reflexivity | discriminate]];
       try solve [rewrite ?andb_true_iff, ?app_nil_iff; tauto].
  all: try (apply andb_prop in Hraiz; destruct Hraiz as [Hraiz Hraiz']).
  all: repeat match goal with
       | Hw : ?v = true -> _ /\ _, Hr : ?v = true |- _ =>
           destruct (Hw Hr) as [? ?]; clear Hw
       end.
  all: subst; try reflexivity.
  all: repeat (apply Forall_app; split); solve [auto | constructor].
Qed.

Lemma decorar_borrar eg padre nodo a0 nivel_ :
  borrar (fst (_decorar_arbol eg padre nodo a0 nivel_)) = borrar nodo.
Proof.
  functional induction (_decorar_arbol eg padre nodo a0 nivel_);
    resolver_llamadas; cbn [fst borrar map] in *;
    repeat match goal with H : borrar _ = borrar _ |- _ => rewrite H; clear H end;
    reflexivity.
Qed.

Lemma borrar_fresco (n : Nodo) : arbol_fresco n -> borrar n = n.
Proof.
  induction n as [sim tip hs a IH] using Nodo_ind. intros H.
  apply Forall_nodos in H. destruct H as [Hr Hh]. cbn [hijos atributos] in *.
  unfold fresco in Hr. cbn [atributos] in Hr. subst a. cbn [borrar]. f_equal.
  apply Forall_flat_map in Hh.
  induction hs as [|h hs IHhs]; [reflexivity |].
  inversion IH; subst. inversion Hh; subst. cbn [map]. f_equal; auto.
Qed.

(* ================================================================== *)
(** ** The decoration against the reference machine *)
(* ================================================================== *)

Lemma decorar_A_moneda (eg : list str) (padre : option Atributos) (tip : str)
    (hijo : Nodo) (at_ a0 : Atributos) (nivel_ : Z) :
  nivel_ <= 3 -> simbolo hijo = py "$" ->
  _decorar_arbol eg padre (mkNodo (py "A") tip [hijo] at_) a0 nivel_ =
  (mkNodo (py "A") tip [hijo]
     (mkAtributos (saldo_del_padre padre + 1) true nivel_
        (refrescos_del_padre padre) (errores a0)),
   eg).
Proof.
  intros H He. cbn [_decorar_arbol]. rewrite (no_excede_nivel nivel_ H), He.
  reflexivity.
Qed.

Lemma decorar_A_devolucion (eg : list str) (padre : option Atributos)
    (tip : str) (hijo : Nodo) (at_ a0 : Atributos) (nivel_ : Z) :
  nivel_ <= 3 -> simbolo hijo = py "<" ->
  _decorar_arbol eg padre (mkNodo (py "A") tip [hijo] at_) a0 nivel_ =
  (mkNodo (py "A") tip [hijo]
     (if saldo_del_padre padre <? 1 then
        mkAtributos (saldo_del_padre padre) false nivel_
          (refrescos_del_padre padre) (errores a0 ++ [msg_sin_monedas])
      else
        mkAtributos (saldo_del_padre padre - 1) true nivel_
          (refrescos_del_padre padre) (errores a0)),
   eg).
Proof.
  intros H He. cbn [_decorar_arbol]. rewrite (no_excede_nivel nivel_ H), He.
  change (str_eqb (py "A") (py "P")) with false.
  change (str_eqb (py "A") (py "C")) with false.
  change (str_eqb (py "A") (py "A")) with true.
  change (str_eqb (py "<") (py "$")) with false.
  change (str_eqb (py "<") (py "R")) with false.
  change (str_eqb (py "<") (py "<")) with true. cbv iota zeta.
  destruct (saldo_del_padre padre <? 1); reflexivity.
Qed.

Lemma decorar_C_vacio (eg : list str) (padre : option Atributos) (tip : str)
    (at_ a0 : Atributos) (nivel_ : Z) :
  nivel_ <= 3 ->
  _decorar_arbol eg padre (mkNodo (py "C") tip [] at_) a0 nivel_ =
  (mkNodo (py "C") tip [] (con_nivel a0 nivel_), eg).
Proof.
  intros H. cbn [_decorar_arbol]. rewrite (no_excede_nivel nivel_ H).
  reflexivity.
Qed.

Lemma paso_blanco (pila : list (Z * Z)) (c : caracter) :
  es_espacio_blanco c = true -> paso pila c = Some pila.
Proof.
  intros Hc. unfold paso, car_eqb.
  assert (H : forall x, es_espacio_blanco x = false -> (c =? x)%N = false).
  { intros x Hx. apply N.eqb_neq. intros ->. congruence. }
  rewrite !H by reflexivity. reflexivity.
Qed.

Lemma correr_blancos (s : str) :
  Forall (fun c => es_espacio_blanco c = true) s ->
  forall pila, correr pila s = Some pila.
Proof.
  induction 1 as [|c s Hc _ IH]; intros pila; [reflexivity |].
  cbn [correr]. rewrite (paso_blanco pila c Hc). apply IH.
Qed.

Lemma correr_app (a b : str) : forall pila,
  correr pila (a ++ b) =
  match correr pila a with Some p => correr p b | None => None end.
Proof.
  induction a as [|c a IH]; intros pila; cbn [app correr]; [reflexivity |].
  destruct (paso pila c); [apply IH | reflexivity].
Qed.

(** A content of the grammar leaves the frames below the top as they
    were. *)
Lemma correr_contenido (s : str) :
  contenido_gramatical s ->
  forall top resto p,
    correr (top :: resto) s = Some p -> exists top', p = top' :: resto.
Proof.
  induction 1 as [|s _ IH|c s Hc _ IH|s1 s2 _ IH1 _ IH2]; intros top resto p H.
  - injection H as <-. eauto.
  - cbn [correr] in H. rewrite paso_blanco in H by reflexivity.
    eapply IH, H.
  - cbn [correr] in H.
    destruct (ficha_no_especial c Hc) as (_ & H1 & H2 & _).
    unfold paso in H. rewrite H1, H2 in H. destruct top as [b k].
    cbn [sobre_tope] in H.
    repeat match type of H with
           | context [if ?x then _ else _] => destruct x
           end; try discriminate H; eapply IH, H.
  - cbn [correr] in H. unfold paso at 1 in H.
    change (car_eqb (car "{") (car "{")) with true in H. cbv iota in H.
    destruct (3 <=? Z.of_nat (List.length (top :: resto))); [discriminate |].
    rewrite correr_app in H.
    destruct (correr ((0, 0) :: top :: resto) s1) as [p1|] eqn:E1;
      [| discriminate].
    destruct (IH1 _ _ _ E1) as [top1 ->].
    cbn [correr] in H. unfold paso at 1 in H.
    change (car_eqb (car "}") (car "{")) with false in H.
    change (car_eqb (car "}") (car "}")) with true in H. cbv iota in H.
    eapply IH2, H.
Qed.

Lemma siguiente_maquina (f : nat) (s : str) :
  sigue_maquina f s ->
  forall eg padre tip at_ a0 nivel_ resto,
    nivel_ <= 3 -> Z.of_nat (List.length resto) + 1 = nivel_ ->
    valido a0 = true ->
    n_valido
      (fst (_decorar_arbol eg padre
              (mkNodo (py "C") tip
                 (match strip s with [] => [epsilon] | _ => bucle f s end) at_)
              a0 nivel_))
    = termina (correr (estado a0 :: resto) s).
Proof.
  intros H eg padre tip at_ a0 nivel_ resto Hn Hl Hv.
  destruct (strip s) eqn:E; [| apply H; assumption].
  rewrite decorar_C_eps by (auto; reflexivity).
  rewrite correr_blancos; [reflexivity |].
  apply strip_nil_blancos, E.
Qed.

Lemma bucle_maquina (s : str) :
  contenido_gramatical s ->
  forall f, (List.length s <= f)%nat -> sigue_maquina f s.
Proof.
  induction 1 as [|s _ IH|c s Hc _ IH|s1 s2 H1 IH1 H2 IH2]; intros f Hf;
    unfold sigue_maquina; intros eg padre tip at_ a0 nivel_ resto Hn Hl Hv.
  - replace (bucle f []) with (@nil Nodo) by (destruct f; reflexivity).
    rewrite decorar_C_vacio by exact Hn. cbn. exact Hv.
  - destruct f as [|f]; [simpl in Hf; lia |]. simpl in Hf.
    rewrite bucle_eq. change (car_eqb (car " ") (car " ")) with true. cbv iota.
    cbn [correr]. rewrite paso_blanco by reflexivity.
    apply IH; assumption || lia.
  - destruct f as [|f]; [simpl in Hf; lia |]. simpl in Hf.
    destruct (ficha_no_especial c Hc) as (He & Hl1 & Hl2 & _).
    rewrite bucle_eq, He, Hc. cbv iota zeta.
    rewrite decorar_C_AC by exact Hn. cbv zeta.
    unfold n_valido at 1. cbn [fst atributos valido].
    pose proof (fun e p t a a' =>
                  siguiente_maquina f s (IH f ltac:(lia)) e p t a a' nivel_
                    resto Hn Hl) as Hs.
    cbn [correr]. unfold paso. rewrite Hl1, Hl2. unfold estado in *.
    cbn [sobre_tope].
    unfold pertenece in Hc.
    change (existsb (car_eqb c) (py "$R<"))
      with (car_eqb c (car "$") || (car_eqb c (car "R")
            || (car_eqb c (car "<") || false))) in Hc.
    destruct (car_eqb c (car "$")) eqn:E1.
    { apply N.eqb_eq in E1. subst c.
      rewrite decorar_A_moneda by (auto; reflexivity).
      cbn [fst snd]. unfold n_valido at 1, n_saldo, n_refrescos.
      cbn [atributos valido saldo refrescos_comprados andb
           saldo_del_padre refrescos_del_padre con_nivel].
      rewrite Hs by reflexivity. reflexivity. }
    destruct (car_eqb c (car "R")) eqn:E2.
    { apply N.eqb_eq in E2. subst c.
      rewrite decorar_A_compra by (auto; reflexivity).
      cbn [fst snd saldo_del_padre refrescos_del_padre con_nivel saldo
           refrescos_comprados].
      destruct (saldo a0 <? 3); [reflexivity |].
      destruct (refrescos_comprados a0 >=? 3); [reflexivity |].
      unfold n_valido at 1, n_saldo, n_refrescos.
      cbn [atributos valido saldo refrescos_comprados andb].
      rewrite Hs by reflexivity. reflexivity. }
    destruct (car_eqb c (car "<")) eqn:E3; [| discriminate Hc].
    apply N.eqb_eq in E3. subst c.
    rewrite decorar_A_devolucion by (auto; reflexivity).
    cbn [fst snd saldo_del_padre refrescos_del_padre con_nivel saldo
         refrescos_comprados].
    destruct (saldo a0 <? 1); [reflexivity |].
    unfold n_valido at 1, n_saldo, n_refrescos.
    cbn [atributos valido saldo refrescos_comprados andb].
    rewrite Hs by reflexivity. reflexivity.
  - destruct f as [|f]; [simpl in Hf; lia |]. simpl in Hf.
    rewrite length_app in Hf. simpl in Hf.
    rewrite bucle_eq.
    change (car_eqb (car "{") (car " ")) with false.
    change (pertenece (car "{") (py "$R<")) with false.
    change (car_eqb (car "{") (car "{")) with true. cbv iota.
    rewrite (buscar_cierre_bloque s1 s2 H1). cbn [fst snd].
    replace (rebanada_1_m1 (car "{" :: s1 ++ [car "}"])) with s1
      by (unfold rebanada_1_m1; cbn [tl]; rewrite removelast_last; reflexivity).
    rewrite decorar_C_AC by exact Hn. cbv zeta.
    unfold n_valido at 1. cbn [fst atributos valido].
    rewrite decorar_A_bloque by exact Hn. cbv zeta. cbn [fst snd].
    unfold n_valido at 1, n_saldo, n_refrescos.
    cbn [atributos valido saldo refrescos_comprados
         saldo_del_padre refrescos_del_padre con_nivel].
    pose proof (fun e p t a a' =>
                  siguiente_maquina f s2 (IH2 f ltac:(lia)) e p t a a' nivel_
                    resto Hn Hl) as Hs.
    rewrite Hs by reflexivity.
    unfold estado. cbn [saldo refrescos_comprados].
    cbn [correr]. unfold paso at 1.
    change (car_eqb (car "{") (car "{")) with true. cbv iota.
    cbn [List.length].
    destruct (Z_lt_le_dec 3 (nivel_ + 1)) as [Hg | Hg].
    + replace (3 <=? Z.of_nat (S (List.length resto))) with true
        by (symmetry; apply Z.leb_le; lia).
      rewrite decorar_limite by exact Hg. reflexivity.
    + replace (3 <=? Z.of_nat (S (List.length resto))) with false
        by (symmetry; apply Z.leb_gt; lia).
      rewrite correr_app.
      assert (Hin : n_valido
                (fst (_decorar_arbol eg
                        (Some (mkAtributos (saldo atributos_iniciales)
                                 (valido atributos_iniciales) nivel_
                                 (refrescos_comprados atributos_iniciales)
                                 (errores atributos_iniciales)))
                        (mkNodo (py "C") no_terminal
                           (match s1 with [] => [epsilon] | _ => bucle f s1 end)
                           atributos_iniciales)
                        atributos_iniciales (nivel_ + 1)))
              = termina (correr ((0, 0) :: (saldo a0, refrescos_comprados a0)
                                   :: resto) s1)).
      { destruct s1 as [|c1 r1].
        - rewrite decorar_C_eps by (auto; reflexivity). reflexivity.
        - apply (IH1 f ltac:(simpl in *; lia) eg _ no_terminal
                   atributos_iniciales atributos_iniciales (nivel_ + 1)
                   ((saldo a0, refrescos_comprados a0) :: resto));
            [lia | cbn [List.length]; lia | reflexivity]. }
      cbn [atributos] in *.
      change (con_nivel atributos_iniciales nivel_)
        with (mkAtributos (saldo atributos_iniciales)
                (valido atributos_iniciales) nivel_
                (refrescos_comprados atributos_iniciales)
                (errores atributos_iniciales)).
      rewrite Hin.
      destruct (correr ((0, 0) :: (saldo a0, refrescos_comprados a0) :: resto)
                  s1) as [p1|] eqn:E1; [| reflexivity].
      destruct (correr_contenido s1 H1 _ _ _ E1) as [top1 ->].
      cbn [termina andb correr]. unfold paso at 1.
      change (car_eqb (car "}") (car "{")) with false.
      change (car_eqb (car "}") (car "}")) with true. cbv iota.
      reflexivity.
Qed.
(* ================================================================== *)
(** ** Joined lines of the renderings *)
(* ================================================================== *)

Lemma unir_app (sep : str) (a b : list str) :
  a <> [] -> b <> [] ->
  unir sep (a ++ b) = unir sep a ++ sep ++ unir sep b.
Proof.
  intros Ha Hb. induction a as [|x a IH]; [congruence |].
  destruct a as [|y a].
  - cbn [app unir]. destruct b; [congruence | reflexivity].
  - cbn [app unir] in *. rewrite IH by discriminate.
    rewrite <- !app_assoc. reflexivity.
Qed.

Lemma unir_grupos (sep : str) (gs : list (list str)) :
  Forall (fun g => g <> []) gs ->
  unir sep (map (unir sep) gs) = unir sep (List.concat gs).
Proof.
  induction 1 as [|g gs Hg Hgs IH]; [reflexivity |].
  cbn [map List.concat]. destruct gs as [|g' gs].
  - cbn [map List.concat unir]. rewrite app_nil_r. reflexivity.
  - rewrite unir_app; [| exact Hg |].
    + cbn [unir map] in *. rewrite IH. reflexivity.
    + inversion Hgs as [|? ? Hg' _]; subst. cbn [List.concat].
      destruct g'; [congruence | discriminate].
Qed.

Lemma unir_aplanar (sep : str) (cab : list str) (gs : list (list str)) :
  Forall (fun g => g <> []) gs ->
  unir sep (cab ++ map (unir sep) gs) = unir sep (cab ++ List.concat gs).
Proof.
  intros H. destruct cab as [|x cab]; [apply unir_grupos, H |].
  destruct gs as [|g gs]; [reflexivity |].
  rewrite !unir_app; try discriminate.
  - rewrite unir_grupos by exact H. reflexivity.
  - inversion H as [|? ? Hg _]; subst. cbn [List.concat].
    destruct g; [congruence | discriminate].
Qed.

Lemma lineas_indentadas_no_vacias (n : Nodo) (k : Z) :
  lineas_indentadas n k <> [].
Proof.
  destruct n as [sim tip hs a]. cbn [lineas_indentadas].
  destruct (str_eqb tip no_terminal); discriminate.
Qed.

Lemma imprimir_arbol_lineas (n : Nodo) : forall k,
  imprimir_arbol n k = unir salto (lineas_indentadas n k).
Proof.
  induction n as [sim tip hs a IH] using Nodo_ind. intros k.
  cbn [imprimir_arbol lineas_indentadas].
  rewrite flat_map_concat_map.
  rewrite <- unir_aplanar.
  - rewrite map_map. f_equal. f_equal.
    apply map_ext_in. intros h Hh. rewrite Forall_forall in IH. apply IH, Hh.
  - apply Forall_map, Forall_forall. intros h _.
    apply lineas_indentadas_no_vacias.
Qed.

Lemma lineas_visuales_no_vacias (n : Nodo) (p : str) (u r : bool) :
  lineas_visuales n p u r <> [].
Proof.
  destruct n as [sim tip hs a]. cbn [lineas_visuales].
  destruct (str_eqb tip no_terminal); discriminate.
Qed.

Lemma imprimir_arbol_visual_lineas (n : Nodo) : forall p u r,
  imprimir_arbol_visual n p u r = unir salto (lineas_visuales n p u r).
Proof.
  induction n as [sim tip hs a IH] using Nodo_ind. intros p u r.
  cbn [imprimir_arbol_visual lineas_visuales].
  set (np := if r then [] else p ++ (if u then py "    " else py "│   ")).
  match goal with
  | |- unir _ (?c ++ ?t) = unir _ (?c' ++ ?l) =>
      assert (Hg : exists gs, Forall (fun g => g <> []) gs
                 /\ t = map (unir salto) gs /\ l = List.concat gs)
  end.
  { clear - IH. induction hs as [|h hs IHhs].
    - exists []. repeat split. constructor.
    - inversion IH as [|? ? Hh Hhs]; subst.
      destruct (IHhs Hhs) as (gs & Hne & Ht & Hl).
      exists (lineas_visuales h np
                (match hs with [] => true | _ => false end) false :: gs).
      split; [constructor; [apply lineas_visuales_no_vacias | exact Hne] |].
      split.
      + cbn [map]. rewrite Hh. f_equal. exact Ht.
      + cbn [List.concat]. f_equal. exact Hl. }
  destruct Hg as (gs & Hne & Ht & Hl). rewrite Ht, Hl.
  apply unir_aplanar, Hne.
Qed.

Lemma cuenta_hijos (f : Nodo -> list str) (hs : list Nodo) :
  Forall (fun h => List.length (f h) = cuenta_lineas h) hs ->
  List.length (flat_map f hs)
  = (List.length (flat_map nodos hs)
     + List.length
         (flat_map n_errores
            (filter (fun m => str_eqb (tipo m) no_terminal)
               (flat_map nodos hs))))%nat.
Proof.
  induction 1 as [|h hs Hh _ IH]; [reflexivity |].
  cbn [flat_map]. rewrite filter_app, flat_map_app, !length_app, IH, Hh.
  unfold cuenta_lineas. lia.
Qed.

Lemma cuenta_lineas_indentadas (n : Nodo) : forall k,
  List.length (lineas_indentadas n k) = cuenta_lineas n.
Proof.
  induction n as [sim tip hs a IH] using Nodo_ind. intros k.
  change (lineas_indentadas (mkNodo sim tip hs a) k)
    with ((if str_eqb tip no_terminal then
             (repetir (py "  ") k ++ sim ++ py " (" ++
                (py "saldo=" ++ str_de_entero (saldo a)
                   ++ py ", valido=" ++ str_de_bool (valido a)
                   ++ py ", nivel=" ++ str_de_entero (nivel a)
                   ++ py ", refrescos="
                   ++ str_de_entero (refrescos_comprados a))
                ++ py ")")
               :: map (fun error => repetir (py "  ") k ++ py "  ERROR: "
                                      ++ error) (errores a)
           else [repetir (py "  ") k ++ sim])
          ++ flat_map (fun hijo => lineas_indentadas hijo (k + 1)) hs).
  rewrite length_app.
  assert (Hc := cuenta_hijos (fun hijo => lineas_indentadas hijo (k + 1)) hs).
  unfold str in *. rewrite Hc
    by (eapply Forall_impl; [| exact IH]; intros h Hh; apply Hh).
  unfold cuenta_lineas. cbn [nodos hijos filter tipo].
  change (n_errores (mkNodo sim tip hs a)) with (errores a).
  destruct (str_eqb tip no_terminal); cbn [flat_map List.length];
    rewrite ?length_app, ?length_map; change (n_errores (mkNodo sim tip hs a)) with (errores a);
    cbn [List.length]; unfold str in *; lia.
Qed.

Lemma cuenta_lineas_visuales (n : Nodo) : forall p u r,
  List.length (lineas_visuales n p u r) = cuenta_lineas n.
Proof.
  induction n as [sim tip hs a IH] using Nodo_ind. intros p u r.
  cbn [lineas_visuales]. rewrite length_app.
  set (np := if r then [] else p ++ (if u then py "    " else py "│   ")).
  match goal with
  | |- (_ + List.length ?l)%nat = _ =>
      assert (Hl : List.length l
                   = (List.length (flat_map nodos hs)
                      + List.length
                          (flat_map n_errores
                             (filter (fun m => str_eqb (tipo m) no_terminal)
                                (flat_map nodos hs))))%nat)
  end.
  { clear - IH. induction hs as [|h hs IHhs]; [reflexivity |].
    inversion IH as [|? ? Hh Hhs]; subst.
    cbn [flat_map]. rewrite filter_app, flat_map_app, !length_app.
    rewrite (IHhs Hhs), Hh. unfold cuenta_lineas. lia. }
  unfold str in *. rewrite Hl. unfold cuenta_lineas. cbn [nodos hijos filter tipo].
  change (n_errores (mkNodo sim tip hs a)) with (errores a).
  destruct (str_eqb tip no_terminal); cbn [flat_map List.length];
    rewrite ?length_app, ?length_map; change (n_errores (mkNodo sim tip hs a)) with (errores a);
    cbn [List.length]; unfold str in *; lia.
Qed.

(* ================================================================== *)
(** ** [strip] and the reference machine at the top level *)
(* ================================================================== *)

Lemma lstrip_descompone (s : str) :
  exists a, Forall (fun c => es_espacio_blanco c = true) a /\ s = a ++ lstrip s.
Proof.
  induction s as [|c s (a & Ha & Hs)]; [exists []; split; [constructor | reflexivity] |].
  cbn [lstrip]. destruct (es_espacio_blanco c) eqn:E.
  - exists (c :: a). split; [constructor; assumption |].
    cbn [app]. f_equal. exact Hs.
  - exists []. split; [constructor | reflexivity].
Qed.

(** A string is its [strip] between two runs of white space. *)
Lemma strip_descompone (s : str) :
  exists a b,
    Forall (fun c => es_espacio_blanco c = true) a /\
    Forall (fun c => es_espacio_blanco c = true) b /\
    s = a ++ strip s ++ b.
Proof.
  destruct (lstrip_descompone s) as (a & Ha & Hs).
  destruct (lstrip_descompone (rev (lstrip s))) as (b & Hb & Hr).
  exists a, (rev b). split; [exact Ha |]. split; [apply Forall_rev, Hb |].
  unfold strip. rewrite <- rev_app_distr, <- Hr, rev_involutive. exact Hs.
Qed.

Lemma strip_idempotente (s : str) : strip (strip s) = strip s.
Proof.
  destruct (strip_descompone s) as (a & b & Ha & Hb & Hs).
  rewrite Hs at 2. rewrite strip_blancos by assumption. reflexivity.
Qed.

Lemma correr_strip (s : str) (pila : list (Z * Z)) :
  correr pila (strip s) = correr pila s.
Proof.
  destruct (strip_descompone s) as (a & b & Ha & Hb & Hs).
  rewrite Hs at 2. rewrite correr_app, (correr_blancos a Ha), correr_app.
  destruct (correr pila (strip s)) as [p|]; [| reflexivity].
  rewrite (correr_blancos b Hb). reflexivity.
Qed.

(** Validity of the root node and the reference machine agree on the
    strings of the grammar. *)
Lemma raiz_maquina (s : str) :
  contenido_gramatical s ->
  n_valido
    (fst (_decorar_arbol [] None
            (_construir_arbol (car "{" :: s ++ [car "}"]))
            atributos_iniciales 1))
  = termina (correr [] (car "{" :: s ++ [car "}"])).
Proof.
  intros Hs. rewrite construir_arbol_eq.
  replace (rebanada_1_m1 (car "{" :: s ++ [car "}"])) with s
    by (unfold rebanada_1_m1; cbn [tl]; rewrite removelast_last; reflexivity).
  rewrite decorar_P by lia. cbv zeta. unfold n_valido at 1.
  cbn [fst atributos valido].
  assert (Hc : n_valido
             (fst (_decorar_arbol [] (Some (con_nivel atributos_iniciales 1))
                     (mkNodo (py "C") no_terminal
                        (_procesar_contenido (strip s)) atributos_iniciales)
                     atributos_iniciales 1))
           = termina (correr [(0, 0)] s)).
  { rewrite <- (correr_strip s). unfold _procesar_contenido.
    destruct (strip s) as [|c r] eqn:E.
    - rewrite decorar_C_eps by (lia || reflexivity). reflexivity.
    - rewrite <- E.
      apply (bucle_maquina (strip s) (strip_gramatical s Hs)
               (List.length (strip s)) (le_n _) [] _ no_terminal
               atributos_iniciales atributos_iniciales 1 []);
        [lia | reflexivity | reflexivity]. }
  cbn [atributos] in *. rewrite Hc.
  cbn [correr]. unfold paso at 1.
  change (car_eqb (car "{") (car "{")) with true. cbv iota.
  cbn [List.length]. change (3 <=? Z.of_nat 0) with false. cbv iota.
  rewrite correr_app.
  destruct (correr [(0, 0)] s) as [p|] eqn:E; [| reflexivity].
  destruct (correr_contenido s Hs _ _ _ E) as [top ->].
  reflexivity.
Qed.

(* ================================================================== *)
(** ** Syntax errors and determinism *)
(* ================================================================== *)


(** C4. A string rejected by [_validar_sintaxis] gives no tree
    ([None]), [es_valida = False], and [errores_globales] holds exactly
    one diagnostic after the call, whatever it held before. *)
Theorem rechazo_sintactico (self : AnalizadorSemantico) (cadena : str) :
  sintaxis_valida cadena = false ->
  fst (analizar_cadena self cadena) = (None, false) /\
  List.length (errores_globales (snd (analizar_cadena self cadena))) = 1%nat.
Proof.
  intros Hrej. unfold analizar_cadena.
  pose proof (validar_agrega (mkAnalizador []) cadena) as (Hv & _ & Hm).
  destruct (_validar_sintaxis (mkAnalizador []) cadena) as [ok self'].
  simpl in *. rewrite Hrej in Hv. subst ok. simpl.
  destruct (Hm eq_refl) as [m ->]. split; reflexivity.
Qed.

Lemma rechazo_sintactico_testigo :
  sintaxis_valida (py "{ $ x }") = false /\
  fst (analizar_cadena Analizador_nuevo (py "{ $ x }")) = (None, false) /\
  List.length
    (errores_globales (snd (analizar_cadena Analizador_nuevo (py "{ $ x }"))))
  = 1%nat.
Proof.
  split; [vm_compute; reflexivity |].
  apply (rechazo_sintactico Analizador_nuevo (py "{ $ x }")).
  vm_compute; reflexivity.
Defined.

(** C9. [analizar_cadena] does not depend on the state of the analyser:
    from any two states the same string gives the same tree (structure
    and attributes), the same [es_valida] and the same
    [errores_globales]; in particular a second call on the same object
    repeats the result of the first, because the accumulator is reset
    on entry. *)
Theorem analizar_cadena_determinista
    (self self' : AnalizadorSemantico) (cadena : str) :
  analizar_cadena self cadena = analizar_cadena self' cadena /\
  analizar_cadena (snd (analizar_cadena self cadena)) cadena
  = analizar_cadena self cadena /\
  errores_globales (snd (analizar_cadena self cadena)) = errores_de cadena.
Proof.
  split; [reflexivity | split; reflexivity].
Qed.

(* ================================================================== *)
(** ** The rules of the productions *)
(* ================================================================== *)

(** C7. [A -> R] evaluated with the balance [b] and the purchase count
    [c] of the enclosing state: with [b < 3] the node is invalid, gets
    the diagnostic "Saldo insuficiente ..." and keeps [b] and [c];
    otherwise with [c >= 3] it is invalid, gets "Excede el máximo de 3
    refrescos por bloque" and keeps [b] and [c]; otherwise it is valid
    with balance [b - 3] and count [c + 1].  When both tests fail the
    diagnostic is the one of the balance, never the one of the quota.
    ([b] and [c] are read from the parent of the node; [nivel_ <= 3]
    says that the node passed the depth gate, as every [A] node that
    [analizar_cadena] decorates does.) *)
Theorem regla_compra (eg : list str) (padre : option Atributos) (tip : str)
    (hijo : Nodo) (at_ a0 : Atributos) (nivel_ : Z) :
  nivel_ <= 3 -> simbolo hijo = py "R" ->
  let b := saldo_del_padre padre in
  let c := refrescos_del_padre padre in
  let r := _decorar_arbol eg padre (mkNodo (py "A") tip [hijo] at_) a0 nivel_ in
  snd r = eg /\
  (b < 3 ->
   n_valido (fst r) = false /\
   n_errores (fst r) = errores a0 ++ [msg_saldo b] /\
   n_saldo (fst r) = b /\ n_refrescos (fst r) = c) /\
  (3 <= b -> 3 <= c ->
   n_valido (fst r) = false /\
   n_errores (fst r) = errores a0 ++ [msg_maximo] /\
   n_saldo (fst r) = b /\ n_refrescos (fst r) = c) /\
  (3 <= b -> c < 3 ->
   n_valido (fst r) = true /\
   n_errores (fst r) = errores a0 /\
   n_saldo (fst r) = b - 3 /\ n_refrescos (fst r) = c + 1) /\
  (b < 3 -> 3 <= c ->
   n_errores (fst r) = errores a0 ++ [msg_saldo b] /\
   msg_saldo b <> msg_maximo).
Proof.
  intros Hn Hr b c r. subst r.
  rewrite decorar_A_compra by assumption.
  cbn [fst snd]. fold b c.
  split; [reflexivity |].
  split; [| split; [| split]].
  - intros Hb. apply Z.ltb_lt in Hb. rewrite Hb. repeat split.
  - intros Hb Hc. apply Z.ltb_ge in Hb. rewrite Hb.
    apply Z.geb_le in Hc. rewrite Hc. repeat split.
  - intros Hb Hc. apply Z.ltb_ge in Hb. rewrite Hb.
    replace (c >=? 3) with false
      by (symmetry; rewrite Z.geb_leb; apply Z.leb_gt; lia).
    repeat split.
  - intros Hb _. apply Z.ltb_lt in Hb. rewrite Hb.
    split; [reflexivity |].
    intros H. apply (f_equal (@hd caracter 0%N)) in H.
    vm_compute in H. discriminate H.
Qed.

Lemma regla_compra_testigo :
  let r :=
    _decorar_arbol [] (Some (mkAtributos 2 true 1 3 []))
      (mkNodo (py "A") no_terminal [Nodo_nuevo (py "R") terminal]
         atributos_iniciales) atributos_iniciales 1 in
  n_valido (fst r) = false /\ n_errores (fst r) = [msg_saldo 2].
Proof.
  pose proof (regla_compra [] (Some (mkAtributos 2 true 1 3 [])) no_terminal
                (Nodo_nuevo (py "R") terminal) atributos_iniciales
                atributos_iniciales 1 ltac:(lia) eq_refl) as H.
  cbv zeta in H. destruct H as (_ & H & _).
  cbn [saldo_del_padre saldo] in H. destruct (H ltac:(lia)) as (Hv & He & _).
  split; [exact Hv | exact He].
Defined.

(** C6. [A -> { C }] at a level that passes the depth gate: the inner
    [C] is decorated at [nivel + 1] with balance 0 and count 0 as its
    inherited values, whatever the enclosing state is; the [A] node
    takes the balance and the count of the enclosing state (read from
    its parent) unchanged, and its validity is the validity of the
    decorated inner [C], so an invalid block makes the node invalid.
    ([fresco nodo_c]: the inner [C] is as the builder made it.) *)
Theorem regla_bloque (eg : list str) (padre : option Atributos) (tip : str)
    (llave_izq nodo_c llave_der : Nodo) (at_ a0 : Atributos) (nivel_ : Z) :
  nivel_ <= 3 -> fresco nodo_c ->
  let r :=
    _decorar_arbol eg padre
      (mkNodo (py "A") tip [llave_izq; nodo_c; llave_der] at_) a0 nivel_ in
  let interno :=
    _decorar_arbol eg (Some (con_nivel a0 nivel_)) nodo_c
      (con_refrescos (con_saldo (atributos nodo_c) 0) 0) (nivel_ + 1) in
  hijos (fst r) = [llave_izq; fst interno; llave_der] /\
  n_nivel (fst interno) = nivel_ + 1 /\
  n_saldo (fst r) = saldo_del_padre padre /\
  n_refrescos (fst r) = refrescos_del_padre padre /\
  n_valido (fst r) = n_valido (fst interno) /\
  (n_valido (fst interno) = false -> n_valido (fst r) = false).
Proof.
  intros Hn Hf r interno. subst r interno.
  rewrite decorar_A_bloque by assumption.
  rewrite Hf. cbv zeta. cbn [fst snd hijos].
  assert (Hniv : forall e q n a l, n_nivel (fst (_decorar_arbol e q n a l)) = l).
  { intros e q n a l.
    functional induction (_decorar_arbol e q n a l); resolver_llamadas; reflexivity. }
  repeat split; auto.
Qed.

Lemma regla_bloque_testigo :
  let r :=
    _decorar_arbol [] (Some (mkAtributos 5 true 1 2 []))
      (mkNodo (py "A") no_terminal
         [Nodo_nuevo (py "{") terminal;
          mkNodo (py "C") no_terminal
            [mkNodo (py "A") no_terminal [Nodo_nuevo (py "R") terminal]
               atributos_iniciales;
             mkNodo (py "C") no_terminal [epsilon] atributos_iniciales]
            atributos_iniciales;
          Nodo_nuevo (py "}") terminal]
         atributos_iniciales) atributos_iniciales 1 in
  n_saldo (fst r) = 5 /\ n_refrescos (fst r) = 2 /\ n_valido (fst r) = false.
Proof.
  pose proof (regla_bloque [] (Some (mkAtributos 5 true 1 2 [])) no_terminal
                (Nodo_nuevo (py "{") terminal)
                (mkNodo (py "C") no_terminal
                   [mkNodo (py "A") no_terminal [Nodo_nuevo (py "R") terminal]
                      atributos_iniciales;
                    mkNodo (py "C") no_terminal [epsilon] atributos_iniciales]
                   atributos_iniciales)
                (Nodo_nuevo (py "}") terminal)
                atributos_iniciales atributos_iniciales 1
                ltac:(lia) eq_refl) as H.
  cbv zeta in H. destruct H as (_ & _ & Hs & Hc & _ & Hv).
  split; [exact Hs | split; [exact Hc |]].
  apply Hv. vm_compute. reflexivity.
Defined.

(* ================================================================== *)
(** ** Properties of the decorated tree *)
(* ================================================================== *)

Lemma arbol_de_valida (cadena : str) :
  sintaxis_valida cadena = true ->
  arbol_de cadena =
    Some (fst (_decorar_arbol [] None (_construir_arbol cadena) atributos_iniciales 1))
  /\ errores_de cadena =
     snd (_decorar_arbol [] None (_construir_arbol cadena) atributos_iniciales 1)
  /\ es_valida_de cadena =
     n_valido (fst (_decorar_arbol [] None (_construir_arbol cadena)
                      atributos_iniciales 1))
     && (Z.of_nat (List.length (errores_de cadena)) =? 0).
Proof.
  intros Hv. unfold arbol_de, errores_de, es_valida_de.
  rewrite (analizar_cadena_valida Analizador_nuevo cadena Hv).
  repeat split.
Qed.

(** C10. After [analizar_cadena] on an accepted string every node of the
    returned tree has [saldo >= 0] and [0 <= refrescos_comprados <= 3]. *)
Theorem contadores_en_rango (cadena : str) :
  sintaxis_valida cadena = true ->
  exists arbol,
    arbol_de cadena = Some arbol /\
    forall n, In n (nodos arbol) ->
      0 <= n_saldo n /\ 0 <= n_refrescos n <= 3.
Proof.
  intros Hv. destruct (arbol_de_valida cadena Hv) as (Ha & _).
  eexists. split; [exact Ha |].
  assert (H : Forall nodo_en_rango
                (nodos (fst (_decorar_arbol [] None (_construir_arbol cadena)
                               atributos_iniciales 1)))).
  { apply decorar_en_rango.
    - pose proof (construir_arbol_fresco cadena) as Hf.
      unfold arbol_fresco in Hf. rewrite Forall_forall in *.
      intros n Hn. unfold nodo_en_rango. rewrite (Hf n Hn).
      unfold en_rango. cbn. lia.
    - unfold en_rango. cbn. lia.
    - exact I. }
  rewrite Forall_forall in H. intros n Hn. apply (H n Hn).
Qed.

Lemma contadores_en_rango_testigo :
  exists arbol,
    arbol_de (py "{ $ $ $ $ R < }") = Some arbol /\
    forall n, In n (nodos arbol) ->
      0 <= n_saldo n /\ 0 <= n_refrescos n <= 3.
Proof.
  apply (contadores_en_rango (py "{ $ $ $ $ R < }")).
  vm_compute. reflexivity.
Defined.

(** C8. After [analizar_cadena] on an accepted string the balance of the
    root is 0, and so is its purchase count, whatever balance the tokens
    leave.  The chain of [C] nodes that [_construir_arbol] hangs below
    the root ends in [C -> ε]; the decoration of this chain ends with
    balance 0 and count 0 at its head from every state it is entered
    with: whatever balance and count are handed to it, whatever
    attributes the node carries, whatever the parent: [C -> ε] writes 0
    over the state it receives and every [C -> A C] takes the result of
    the next [C] as its own.  The root copies the head of the chain. *)
Theorem saldo_final_de_la_raiz (cadena : str) :
  sintaxis_valida cadena = true ->
  exists arbol hs,
    arbol_de cadena = Some arbol /\
    hijos (_construir_arbol cadena) =
      [mkNodo (py "{") terminal [] atributos_iniciales;
       mkNodo (py "C") no_terminal hs atributos_iniciales;
       mkNodo (py "}") terminal [] atributos_iniciales] /\
    cadena_cerrada hs /\
    (forall eg padre tip at_ a0 nivel_,
       nivel_ <= 3 ->
       n_saldo
         (fst (_decorar_arbol eg padre (mkNodo (py "C") tip hs at_) a0 nivel_))
       = 0 /\
       n_refrescos
         (fst (_decorar_arbol eg padre (mkNodo (py "C") tip hs at_) a0 nivel_))
       = 0) /\
    n_saldo arbol = 0 /\ n_refrescos arbol = 0.
Proof.
  intros Hv. destruct (arbol_de_valida cadena Hv) as (Ha & _).
  pose proof (procesar_contenido_cerrada (rebanada_1_m1 cadena)) as Hc.
  eexists. exists (_procesar_contenido (strip (rebanada_1_m1 cadena))).
  split; [exact Ha |].
  split; [rewrite construir_arbol_eq; reflexivity |].
  split; [exact Hc |].
  split.
  - intros eg padre tip at_ a0 nivel_ Hn.
    apply decorar_cadena_cerrada; [exact Hc | exact Hn].
  - rewrite construir_arbol_eq, decorar_P by lia.
    cbv zeta. cbn [fst]. unfold n_saldo at 1, n_refrescos at 1.
    cbn [atributos saldo refrescos_comprados].
    apply decorar_cadena_cerrada; [exact Hc | lia].
Qed.

(** On [{ $ $ }] the two coins leave a balance of 2, which the node of
    the second coin shows, and the root says 0. *)
Lemma saldo_final_de_la_raiz_testigo :
  exists arbol hs,
    arbol_de (py "{ $ $ }") = Some arbol /\
    hijos (_construir_arbol (py "{ $ $ }")) =
      [mkNodo (py "{") terminal [] atributos_iniciales;
       mkNodo (py "C") no_terminal hs atributos_iniciales;
       mkNodo (py "}") terminal [] atributos_iniciales] /\
    cadena_cerrada hs /\
    (forall eg padre tip at_ a0 nivel_,
       nivel_ <= 3 ->
       n_saldo
         (fst (_decorar_arbol eg padre (mkNodo (py "C") tip hs at_) a0 nivel_))
       = 0 /\
       n_refrescos
         (fst (_decorar_arbol eg padre (mkNodo (py "C") tip hs at_) a0 nivel_))
       = 0) /\
    (n_saldo arbol = 0 /\ n_refrescos arbol = 0) /\
    exists n, In n (nodos arbol) /\ simbolo n = py "A" /\ n_saldo n = 2.
Proof.
  destruct (saldo_final_de_la_raiz (py "{ $ $ }") eq_refl)
    as (arbol & hs & Ha & Hh & Hc & Hs & Hr).
  exists arbol, hs.
  split; [exact Ha |]. split; [exact Hh |]. split; [exact Hc |].
  split; [exact Hs |]. split; [exact Hr |].
  vm_compute in Ha. injection Ha as <-.
  match goal with
  | |- exists n, In n (nodos ?t) /\ _ =>
      destruct (proj1 (existsb_exists
                         (fun n => str_eqb (simbolo n) (py "A")
                                   && (n_saldo n =? 2))
                         (nodos t)) eq_refl) as (n & Hin & Hn)
  end.
  apply andb_prop in Hn. destruct Hn as [Hsim Hsal].
  exists n. split; [exact Hin |].
  split; [apply str_eqb_eq, Hsim | apply Z.eqb_eq, Hsal].
Defined.

Lemma arbol_bien_decorado (cadena : str) :
  sintaxis_valida cadena = true ->
  exists arbol,
    arbol_de cadena = Some arbol /\
    Forall bien_decorado (nodos arbol) /\
    errores_de cadena = repeat msg_limite (cuenta_excede arbol).
Proof.
  intros Hv. destruct (arbol_de_valida cadena Hv) as (Ha & He & _).
  eexists. split; [exact Ha |].
  destruct (decorar_fresco [] None (_construir_arbol cadena)
              atributos_iniciales 1 (construir_arbol_fresco cadena) eq_refl)
    as [Hb Heg].
  split; [exact Hb |]. rewrite He. exact Heg.
Qed.

(** On a string of the grammar that holds a block content at a brace
    depth above 3, some node of the returned tree is decorated at a
    level above 3. *)
Lemma cadena_profunda (cadena : str) :
  cadena_gramatical cadena -> 3 < profundidad_maxima cadena ->
  exists arbol n,
    arbol_de cadena = Some arbol /\ In n (nodos arbol) /\ 3 < n_nivel n.
Proof.
  intros Hg Hp. pose proof (gramatical_valida cadena Hg) as Hv.
  destruct (arbol_bien_decorado cadena Hv) as (arbol & Ha & _ & He).
  destruct (arbol_de_valida cadena Hv) as (_ & He' & _).
  exists arbol.
  assert (Hc : (0 < cuenta_excede arbol)%nat).
  { assert (Hl : (0 < List.length (errores_de cadena))%nat).
    { rewrite He'. destruct Hg as (s & Hs & ->).
      rewrite construir_arbol_eq, decorar_P by lia. cbv zeta. cbn [snd].
      replace (rebanada_1_m1 (car "{" :: s ++ [car "}"])) with s
        by (unfold rebanada_1_m1; cbn [tl]; rewrite removelast_last;
            reflexivity).
      assert (Hps : 3 < 1 + profundidad_maxima (strip s)).
      { rewrite profundidad_strip.
        change (car "{" :: s ++ [car "}"]) with (car "{" :: s ++ car "}" :: [])
          in Hp.
        rewrite (profundidad_bloque s [] Hs) in Hp.
        cbn [profundidad_maxima] in Hp.
        pose proof (profundidad_no_negativa s). lia. }
      unfold _procesar_contenido.
      destruct (strip s) as [|c r] eqn:E; [cbn in Hps; lia |].
      rewrite <- E in *.
      eapply Nat.le_lt_trans;
        [| apply (bucle_profundo (strip s) (strip_gramatical s Hs));
           [lia | lia | exact Hps]].
      simpl. lia. }
    rewrite He, repeat_length in Hl. exact Hl. }
  unfold cuenta_excede in Hc.
  destruct (filter excede (nodos arbol)) as [|n l] eqn:E; [simpl in Hc; lia |].
  assert (Hin : In n (filter excede (nodos arbol))) by (rewrite E; left; reflexivity).
  apply filter_In in Hin. destruct Hin as [Hin Hex].
  exists n. split; [exact Ha |]. split; [exact Hin |].
  unfold excede in Hex. apply Z.gtb_lt in Hex. lia.
Qed.

(** C5. On an accepted string, whenever the returned tree has a node
    decorated at a level above 3: [es_valida] is false, the node is
    invalid, its only diagnostic is the nesting limit one (with its
    level), [errores_globales] holds the nesting limit diagnostic, and
    every descendant of the node still has the attributes it was built
    with, so nothing below the node was evaluated, whatever the tokens
    below it are.  On a string of the grammar with a block content at a
    brace depth above 3 such a node exists. *)
Theorem limite_de_anidacion (cadena : str) :
  sintaxis_valida cadena = true ->
  exists arbol,
    arbol_de cadena = Some arbol /\
    (forall n, In n (nodos arbol) -> 3 < n_nivel n ->
       es_valida_de cadena = false /\
       In msg_limite (errores_de cadena) /\
       n_valido n = false /\
       n_errores n = [msg_limite_nodo (n_nivel n)] /\
       Forall fresco (descendientes n)) /\
    (cadena_gramatical cadena -> 3 < profundidad_maxima cadena ->
     exists n, In n (nodos arbol) /\ 3 < n_nivel n).
Proof.
  intros Hv. destruct (arbol_bien_decorado cadena Hv) as (arbol & Ha & Hb & He).
  exists arbol. split; [exact Ha |]. split.
  - intros n Hn Hniv.
    assert (Hex : excede n = true) by (unfold excede; apply Z.gtb_lt; lia).
    assert (Hc : (0 < cuenta_excede arbol)%nat).
    { unfold cuenta_excede.
      assert (Hin : In n (filter excede (nodos arbol)))
        by (apply filter_In; auto).
      destruct (filter excede (nodos arbol)); [destruct Hin | simpl; lia]. }
    rewrite Forall_forall in Hb. destruct (Hb n Hn) as [Hg _].
    destruct (Hg Hex) as (H1 & H2 & H3).
    destruct (arbol_de_valida cadena Hv) as (_ & _ & Hval).
    rewrite Hval, He.
    destruct (cuenta_excede arbol) as [|k]; [lia |].
    cbn [repeat List.length].
    split; [apply andb_false_r |].
    split; [left; reflexivity |]. auto.
  - intros Hg Hp.
    destruct (cadena_profunda cadena Hg Hp) as (arbol' & n & Ha' & Hin & Hniv).
    rewrite Ha in Ha'. injection Ha' as <-.
    exists n. split; assumption.
Qed.

(** The string of scenario 6 is a string of the grammar, of depth 4. *)
Lemma escenario_6_gramatical :
  cadena_gramatical (py "{ { { { $ $ $ R } } } }") /\
  profundidad_maxima (py "{ { { { $ $ $ R } } } }") = 4.
Proof.
  split; [| reflexivity].
  exists (py " { { { $ $ $ R } } } "). split; [| reflexivity].
  apply cg_espacio.
  apply (cg_bloque (py " { { $ $ $ R } } ") (py " ")); [| repeat constructor].
  apply cg_espacio.
  apply (cg_bloque (py " { $ $ $ R } ") (py " ")); [| repeat constructor].
  apply cg_espacio.
  apply (cg_bloque (py " $ $ $ R ") (py " ")); [| repeat constructor].
  repeat first [apply cg_espacio | apply cg_vacio | apply cg_ficha; [reflexivity |]].
Qed.

Lemma limite_de_anidacion_testigo :
  exists arbol n,
    arbol_de (py "{ { { { $ $ $ R } } } }") = Some arbol /\
    In n (nodos arbol) /\ n_nivel n = 4 /\
    es_valida_de (py "{ { { { $ $ $ R } } } }") = false /\
    n_valido n = false /\
    n_errores n = [msg_limite_nodo 4] /\
    exists n', In n' (nodos arbol) /\ 3 < n_nivel n'.
Proof.
  destruct (limite_de_anidacion (py "{ { { { $ $ $ R } } } }")
              ltac:(vm_compute; reflexivity)) as (arbol & Ha & H & Hg).
  exists arbol.
  assert (Hn : exists n, In n (nodos arbol) /\ n_nivel n = 4).
  { pose proof Ha as Ha'. vm_compute in Ha'. injection Ha' as <-.
    eexists. split; [do 11 right; left; reflexivity | reflexivity]. }
  destruct Hn as (n & Hin & Hniv). exists n.
  destruct (H n Hin ltac:(lia)) as (H1 & _ & H3 & H4 & _).
  rewrite Hniv in H4.
  split; [exact Ha |]. split; [exact Hin |]. split; [exact Hniv |].
  split; [exact H1 |]. split; [exact H3 |]. split; [exact H4 |].
  destruct escenario_6_gramatical as [Hgr Hpr].
  apply (Hg Hgr). rewrite Hpr. lia.
Defined.

(* ================================================================== *)
(** ** Global and node diagnostics *)
(* ================================================================== *)

(** C1, as stated, fails: on ["{ $ R }"] the purchase is refused and the
    diagnostic is stored in the [A] node (and copied into its
    ancestors), while [errores_globales] stays empty. *)
Lemma errores_globales_contraejemplo :
  sintaxis_valida (py "{ $ R }") = true /\
  errores_de (py "{ $ R }") = [] /\
  exists arbol,
    arbol_de (py "{ $ R }") = Some arbol /\
    flat_map n_errores (nodos arbol)
    = [msg_saldo 1; msg_saldo 1; msg_saldo 1; msg_saldo 1] /\
    errores_de (py "{ $ R }") <> flat_map n_errores (nodos arbol).
Proof.
  split; [vm_compute; reflexivity |].
  split; [vm_compute; reflexivity |].
  eexists. split; [vm_compute; reflexivity |].
  split; [vm_compute; reflexivity |].
  vm_compute. discriminate.
Qed.

(** C1, amended.  On an accepted string: (1) the [errores] field of every
    node that passed the depth gate and is not a one-token action
    ([A -> $ | R | <]) is the concatenation, in order, of the [errores]
    fields of its children, so a diagnostic is repeated in every ancestor
    of the node that raised it and the root lists all of them; (2) the
    number of nesting limit diagnostics in [errores_globales] is the
    number of nodes of the returned tree that were stopped by the depth
    gate. *)
Theorem errores_de_nodos_y_globales (cadena : str) :
  sintaxis_valida cadena = true ->
  exists arbol,
    arbol_de cadena = Some arbol /\
    (forall n, In n (nodos arbol) ->
       excede n = false -> accion_simple n = false ->
       n_errores n = flat_map n_errores (hijos n)) /\
    count_occ str_eq_dec (errores_de cadena) msg_limite = cuenta_excede arbol.
Proof.
  intros Hv. destruct (arbol_bien_decorado cadena Hv) as (arbol & Ha & Hb & He).
  exists arbol. split; [exact Ha |]. split.
  - rewrite Forall_forall in Hb. intros n Hn. apply (Hb n Hn).
  - rewrite He. generalize (cuenta_excede arbol) as k.
    induction k as [|k IH]; [reflexivity |].
    cbn [repeat]. rewrite count_occ_cons_eq by reflexivity. rewrite IH.
    reflexivity.
Qed.

Lemma errores_de_nodos_y_globales_testigo :
  exists arbol,
    arbol_de (py "{ { { { R } } } < }") = Some arbol /\
    (forall n, In n (nodos arbol) ->
       excede n = false -> accion_simple n = false ->
       n_errores n = flat_map n_errores (hijos n)) /\
    count_occ str_eq_dec (errores_de (py "{ { { { R } } } < }")) msg_limite
    = cuenta_excede arbol.
Proof.
  apply (errores_de_nodos_y_globales (py "{ { { { R } } } < }")).
  vm_compute. reflexivity.
Defined.

(* ================================================================== *)
(** ** Strings on which the builder loses part of the input *)
(* ================================================================== *)

(** C2 at ["{$}{$}"]: the validator accepts the string (the braces are
    balanced and the string starts with an opening and ends with a
    closing brace), a tree is returned, and its leaves hold one [$]
    while the input holds two. *)
Theorem ficha_perdida :
  sintaxis_valida (py "{$}{$}") = true /\
  exists arbol,
    arbol_de (py "{$}{$}") = Some arbol /\
    fichas_del_arbol arbol = [py "$"] /\
    fichas_de_entrada (py "{$}{$}") = [py "$"; py "$"].
Proof.
  split; [vm_compute; reflexivity |].
  eexists. split; [vm_compute; reflexivity |].
  split; vm_compute; reflexivity.
Qed.

(** C3 at ["{ { } }"]: the string is accepted and the [C] node of the
    inner block, whose content is one space, has no child at all. *)
Theorem bloque_de_espacios_sin_hijos :
  sintaxis_valida (py "{ { } }") = true /\
  exists arbol n,
    arbol_de (py "{ { } }") = Some arbol /\
    In n (nodos arbol) /\
    simbolo n = py "C" /\ hijos n = [] /\ n_nivel n = 2.
Proof.
  split; [vm_compute; reflexivity |].
  eexists. eexists. split; [vm_compute; reflexivity |].
  split; [do 5 right; left; reflexivity |].
  repeat split.
Qed.

(** The property of C2 on the strings of the grammar: for
    [{ contenido }] with tokens, spaces and properly nested blocks the
    validator accepts the string and the leaves of the tree are the
    tokens of the input. *)
Lemma fichas_de_cadena_gramatical (cadena : str) :
  cadena_gramatical cadena ->
  sintaxis_valida cadena = true /\
  exists arbol,
    arbol_de cadena = Some arbol /\
    fichas_del_arbol arbol = fichas_de_entrada cadena.
Proof.
  intros Hg. pose proof (gramatical_valida cadena Hg) as Hv.
  split; [exact Hv |].
  destruct (arbol_de_valida cadena Hv) as (Ha & _).
  eexists. split; [exact Ha |].
  destruct Hg as (s & Hs & ->).
  unfold fichas_del_arbol. rewrite decorar_hojas, construir_arbol_eq.
  rewrite hojas_no_terminal. cbn [flat_map]. rewrite !hojas_terminal.
  rewrite hojas_no_terminal, app_nil_r.
  cbn [app filter]. change (es_ficha (py "{")) with false. cbv iota.
  rewrite filter_app. cbn [filter]. change (es_ficha (py "}")) with false.
  cbv iota. rewrite app_nil_r.
  replace (rebanada_1_m1 (car "{" :: s ++ [car "}"])) with s
    by (unfold rebanada_1_m1; cbn [tl]; rewrite removelast_last; reflexivity).
  change (car "{" :: s ++ [car "}"]) with ([car "{"] ++ s ++ [car "}"]).
  rewrite !fichas_de_entrada_app.
  change (fichas_de_entrada [car "{"]) with (@nil str).
  change (fichas_de_entrada [car "}"]) with (@nil str).
  cbn [app]. rewrite app_nil_r, <- (fichas_strip s).
  unfold _procesar_contenido.
  destruct (strip s) as [|c r] eqn:E; [reflexivity |].
  rewrite <- E.
  apply (bucle_gramatical (strip s) (strip_gramatical s Hs)). lia.
Qed.

(** The same loss on a string with a leading space: the validator works
    on the stripped string, the builder slices the string as received. *)
Lemma ficha_perdida_con_espacio_inicial :
  sintaxis_valida (py " {$}") = true /\
  exists arbol,
    arbol_de (py " {$}") = Some arbol /\
    fichas_del_arbol arbol = [] /\
    fichas_de_entrada (py " {$}") = [py "$"].
Proof.
  split; [vm_compute; reflexivity |].
  eexists. split; [vm_compute; reflexivity |].
  split; vm_compute; reflexivity.
Qed.

(* ================================================================== *)
(** ** Lemmas for the further properties *)
(* ================================================================== *)

Lemma strip_en_blanco (s : str) : en_blanco s -> strip s = [].
Proof.
  intros H. unfold strip. rewrite (lstrip_todo_blanco s H). reflexivity.
Qed.

Lemma arbol_de_rechazada (cadena : str) :
  sintaxis_valida cadena = false -> arbol_de cadena = None.
Proof.
  intros Hrej. unfold arbol_de, analizar_cadena.
  pose proof (validar_agrega (mkAnalizador []) cadena) as (Hv & _).
  destruct (_validar_sintaxis (mkAnalizador []) cadena) as [ok self'].
  cbn [fst] in Hv. rewrite Hrej in Hv. subst ok. reflexivity.
Qed.

(** What [analizar_cadena] returns as a tree is the decoration of the
    tree of [_construir_arbol]. *)
Lemma arbol_de_inv (cadena : str) (arbol : Nodo) :
  arbol_de cadena = Some arbol ->
  sintaxis_valida cadena = true /\
  arbol = fst (_decorar_arbol [] None (_construir_arbol cadena)
                 atributos_iniciales 1).
Proof.
  intros H. destruct (sintaxis_valida cadena) eqn:E.
  - split; [reflexivity |].
    destruct (arbol_de_valida cadena E) as (Ha & _).
    rewrite Ha in H. injection H as <-. reflexivity.
  - rewrite (arbol_de_rechazada cadena E) in H. discriminate.
Qed.

Lemma validez_de_la_raiz (cadena : str) :
  sintaxis_valida cadena = true ->
  es_valida_de cadena =
  n_valido (fst (_decorar_arbol [] None (_construir_arbol cadena)
                   atributos_iniciales 1))
  /\ (es_valida_de cadena = true -> errores_de cadena = []).
Proof.
  intros Hv. destruct (arbol_de_valida cadena Hv) as (_ & He & Hes).
  destruct (decorar_validez [] None (_construir_arbol cadena)
              atributos_iniciales 1 (construir_arbol_fresco cadena)
              eq_refl eq_refl) as [_ Hval].
  rewrite Hes.
  destruct (n_valido (fst (_decorar_arbol [] None (_construir_arbol cadena)
                             atributos_iniciales 1))) eqn:En.
  - destruct (Hval eq_refl) as [_ Hs]. rewrite He, Hs.
    split; reflexivity.
  - split; [reflexivity | discriminate].
Qed.

Lemma reemplazar_ausente (viejo nuevo s : str) :
  contiene viejo s = false -> reemplazar viejo nuevo 0 s = s.
Proof.
  induction s as [|c r IH]; [reflexivity |].
  cbn [contiene]. intros H. apply orb_false_elim in H. destruct H as [Hp Hc].
  cbn [reemplazar]. rewrite Hp, (IH Hc). reflexivity.
Qed.

Lemma prefijo_txt_solapado (base : str) :
  contiene (py ".txt") base = false ->
  base <> [] ->
  es_prefijo (py ".txt") (base ++ py ".txt") = false.
Proof.
  intros H Hne. destruct base as [|c1 r]; [congruence |].
  cbn [contiene] in H. apply orb_false_elim in H. destruct H as [Hp _].
  change (py ".txt") with [car "."; car "t"; car "x"; car "t"] in *.
  cbn [es_prefijo app] in *.
  destruct (car_eqb (car ".") c1); [| reflexivity]. cbn [andb] in *.
  destruct r as [|c2 r]; [reflexivity |]. cbn [app es_prefijo] in *.
  destruct (car_eqb (car "t") c2); [| reflexivity]. cbn [andb] in *.
  destruct r as [|c3 r]; [reflexivity |]. cbn [app es_prefijo] in *.
  destruct (car_eqb (car "x") c3); [| reflexivity]. cbn [andb] in *.
  destruct r as [|c4 r]; [reflexivity |]. cbn [app es_prefijo] in *.
  destruct (car_eqb (car "t") c4); [discriminate Hp | reflexivity].
Qed.

Lemma reemplazar_txt_final (base : str) :
  contiene (py ".txt") base = false ->
  reemplazar (py ".txt") (py "_resultado.txt") 0 (base ++ py ".txt")
  = base ++ py "_resultado.txt".
Proof.
  induction base as [|c r IH]; intros H; [reflexivity |].
  pose proof (prefijo_txt_solapado (c :: r) H ltac:(discriminate)) as Hp.
  cbn [contiene] in H. apply orb_false_elim in H. destruct H as [_ Hc].
  change ((c :: r) ++ py ".txt") with (c :: (r ++ py ".txt")) in *.
  cbn [reemplazar]. rewrite Hp, (IH Hc). reflexivity.
Qed.

Lemma linea_de_no_terminal (sim : str) (hs : list Nodo) (a : Atributos)
    (k : Z) :
  exists resto,
    lineas_indentadas (mkNodo sim no_terminal hs a) k =
    (repetir (py "  ") k ++ sim ++ py " (" ++
       (py "saldo=" ++ str_de_entero (saldo a)
          ++ py ", valido=" ++ str_de_bool (valido a)
          ++ py ", nivel=" ++ str_de_entero (nivel a)
          ++ py ", refrescos=" ++ str_de_entero (refrescos_comprados a))
       ++ py ")") :: resto.
Proof.
  eexists. cbn [lineas_indentadas].
  change (str_eqb no_terminal no_terminal) with true. cbv iota.
  rewrite <- app_comm_cons. reflexivity.
Qed.

Lemma linea_visual_de_la_raiz (sim : str) (hs : list Nodo) (a : Atributos)
    (p : str) (u : bool) :
  exists resto,
    lineas_visuales (mkNodo sim no_terminal hs a) p u true =
    (sim ++
       (py "[saldo=" ++ str_de_entero (saldo a)
          ++ py ", valido=" ++ str_de_bool (valido a)
          ++ py ", nivel=" ++ str_de_entero (nivel a)
          ++ py ", refrescos=" ++ str_de_entero (refrescos_comprados a)
          ++ py "]")) :: resto.
Proof.
  eexists. cbn [lineas_visuales].
  change (str_eqb no_terminal no_terminal) with true. cbv iota.
  rewrite <- app_comm_cons. reflexivity.
Qed.


(** A one token action leaves [errores_globales] as it is. *)
Lemma decorar_A_ficha (c : caracter) (eg : list str) (padre : option Atributos)
    (tip : str) (at_ a0 a' : Atributos) (nivel_ : Z) :
  nivel_ <= 3 -> pertenece c (py "$R<") = true ->
  snd (_decorar_arbol eg padre
         (mkNodo (py "A") tip [mkNodo [c] terminal [] a'] at_) a0 nivel_) = eg.
Proof.
  intros Hn Hc. unfold pertenece in Hc.
  change (existsb (car_eqb c) (py "$R<"))
    with (car_eqb c (car "$") || (car_eqb c (car "R")
          || (car_eqb c (car "<") || false))) in Hc.
  destruct (car_eqb c (car "$")) eqn:E1.
  { apply N.eqb_eq in E1. subst c.
    rewrite decorar_A_moneda by (auto; reflexivity). reflexivity. }
  destruct (car_eqb c (car "R")) eqn:E2.
  { apply N.eqb_eq in E2. subst c.
    rewrite decorar_A_compra by (auto; reflexivity). reflexivity. }
  destruct (car_eqb c (car "<")) eqn:E3; [| discriminate Hc].
  apply N.eqb_eq in E3. subst c.
  rewrite decorar_A_devolucion by (auto; reflexivity). reflexivity.
Qed.

Lemma siguiente_sin_globales (f : nat) (s : str) :
  sin_globales f s ->
  forall eg padre tip at_ a0 nivel_,
    nivel_ + profundidad_maxima s <= 3 ->
    snd (_decorar_arbol eg padre
           (mkNodo (py "C") tip
              (match strip s with [] => [epsilon] | _ => bucle f s end) at_)
           a0 nivel_) = eg.
Proof.
  intros H eg padre tip at_ a0 nivel_ Hp.
  destruct (strip s) eqn:E; [| apply H; assumption].
  pose proof (profundidad_no_negativa s).
  rewrite decorar_C_eps by (lia || reflexivity). reflexivity.
Qed.

(** Within three levels the decoration of a chain adds nothing to
    [errores_globales]. *)
Lemma bucle_somero (s : str) :
  contenido_gramatical s ->
  forall f, (List.length s <= f)%nat -> sin_globales f s.
Proof.
  induction 1 as [|s _ IH|c s Hc _ IH|s1 s2 H1 IH1 H2 IH2]; intros f Hf;
    unfold sin_globales; intros eg padre tip at_ a0 nivel_ Hp.
  - replace (bucle f []) with (@nil Nodo) by (destruct f; reflexivity).
    cbn in Hp. rewrite decorar_C_vacio by lia. reflexivity.
  - destruct f as [|f]; [simpl in Hf; lia |]. simpl in Hf.
    rewrite bucle_eq. change (car_eqb (car " ") (car " ")) with true. cbv iota.
    apply IH; [lia |]. exact Hp.
  - destruct f as [|f]; [simpl in Hf; lia |]. simpl in Hf.
    destruct (ficha_no_especial c Hc) as (He & Hl & Hr & _).
    cbn [profundidad_maxima] in Hp. rewrite Hl, Hr in Hp.
    pose proof (profundidad_no_negativa s) as Hs.
    rewrite bucle_eq, He, Hc. cbv iota zeta.
    rewrite decorar_C_AC by lia. cbv zeta. cbn [snd].
    rewrite decorar_A_ficha by (lia || exact Hc).
    apply (siguiente_sin_globales f s (IH f ltac:(lia))). exact Hp.
  - destruct f as [|f]; [simpl in Hf; lia |]. simpl in Hf.
    rewrite length_app in Hf. simpl in Hf.
    rewrite (profundidad_bloque s1 s2 H1) in Hp.
    pose proof (profundidad_no_negativa s1) as Hs1.
    pose proof (profundidad_no_negativa s2) as Hs2.
    rewrite bucle_eq.
    change (car_eqb (car "{") (car " ")) with false.
    change (pertenece (car "{") (py "$R<")) with false.
    change (car_eqb (car "{") (car "{")) with true. cbv iota.
    rewrite (buscar_cierre_bloque s1 s2 H1). cbn [fst snd].
    replace (rebanada_1_m1 (car "{" :: s1 ++ [car "}"])) with s1
      by (unfold rebanada_1_m1; cbn [tl]; rewrite removelast_last; reflexivity).
    rewrite decorar_C_AC by lia. cbv zeta. cbn [snd].
    rewrite decorar_A_bloque by lia. cbv zeta. cbn [fst snd].
    assert (Hin : forall p,
              snd (_decorar_arbol eg p
                     (mkNodo (py "C") no_terminal
                        (match s1 with [] => [epsilon] | _ => bucle f s1 end)
                        atributos_iniciales)
                     atributos_iniciales (nivel_ + 1)) = eg).
    { intros p. destruct s1 as [|c1 r1].
      - rewrite decorar_C_eps by (lia || reflexivity). reflexivity.
      - apply (IH1 f ltac:(simpl in *; lia)). lia. }
    cbn [atributos] in *. rewrite Hin.
    apply (siguiente_sin_globales f s2 (IH2 f ltac:(lia))). lia.
Qed.


(* ================================================================== *)
(** ** Further properties of the code *)
(* ================================================================== *)

(** X1. [_validar_sintaxis] accepts a string exactly when the string
    without its surrounding white space starts with ['{'], ends with
    ['}'] and is a sequence of tokens [$ R <], spaces and properly
    nested blocks. *)
Theorem validador_acepta_gramatica (cadena : str) :
  sintaxis_valida cadena = true <->
  startswith (strip cadena) (car "{") = true /\
  endswith (strip cadena) (car "}") = true /\
  contenido_gramatical (strip cadena).
Proof. apply validador_gramatical. Qed.

(** X2. White space around a string does not change the verdict of
    [_validar_sintaxis], which works on [cadena.strip()]. *)
Theorem validador_ignora_blancos (a s b : str) :
  en_blanco a -> en_blanco b ->
  sintaxis_valida (a ++ s ++ b) = sintaxis_valida s.
Proof.
  intros Ha Hb. rewrite !validar_por_strip, strip_blancos by assumption.
  reflexivity.
Qed.

Lemma validador_ignora_blancos_testigo :
  sintaxis_valida (py "  " ++ py "{ $ }" ++ salto) = sintaxis_valida (py "{ $ }").
Proof.
  apply (validador_ignora_blancos (py "  ") (py "{ $ }") salto);
    unfold en_blanco; repeat constructor.
Defined.

(** X3. On the empty string and on a string of white space only,
    [analizar_cadena] returns [(None, False)] and leaves in
    [errores_globales] the single diagnostic on the delimiters, whatever
    the list held before. *)
Theorem entrada_en_blanco (self : AnalizadorSemantico) (cadena : str) :
  en_blanco cadena ->
  analizar_cadena self cadena =
  ((None, false), mkAnalizador [msg_delimitadores]).
Proof.
  intros H. unfold analizar_cadena, _validar_sintaxis. cbv zeta.
  rewrite (strip_en_blanco cadena H). reflexivity.
Qed.

Lemma entrada_en_blanco_testigo :
  analizar_cadena Analizador_nuevo (py "   ") =
  ((None, false), mkAnalizador [msg_delimitadores]).
Proof.
  apply (entrada_en_blanco Analizador_nuevo (py "   ")).
  unfold en_blanco. repeat constructor.
Defined.

(** X4. On a string of the grammar [{ C }] the token leaves of the
    returned tree, read from left to right, are the tokens [$ R <] of
    the input in their order. *)
Theorem hojas_en_orden (cadena : str) :
  cadena_gramatical cadena ->
  exists arbol,
    arbol_de cadena = Some arbol /\
    fichas_del_arbol arbol = fichas_de_entrada cadena.
Proof. intros H. apply fichas_de_cadena_gramatical, H. Qed.

Lemma hojas_en_orden_testigo :
  exists arbol,
    arbol_de (py "{${R}<}") = Some arbol /\
    fichas_del_arbol arbol = fichas_de_entrada (py "{${R}<}").
Proof.
  apply (hojas_en_orden (py "{${R}<}")).
  exists (py "${R}<"). split; [| reflexivity].
  apply cg_ficha; [reflexivity |].
  apply (cg_bloque (py "R") (py "<"));
    (apply cg_ficha; [reflexivity | apply cg_vacio]).
Defined.

(** X5. For every string [_construir_arbol] gives the root the three
    children ['{'], [C], ['}'], and the chain of [C] nodes that starts at
    this [C] ends in a [C] whose single child is [ε]. *)
Theorem cadena_principal_cerrada (cadena : str) :
  exists hs,
    hijos (_construir_arbol cadena) =
    [mkNodo (py "{") terminal [] atributos_iniciales;
     mkNodo (py "C") no_terminal hs atributos_iniciales;
     mkNodo (py "}") terminal [] atributos_iniciales]
    /\ cadena_cerrada hs.
Proof.
  rewrite construir_arbol_eq. eexists. split; [reflexivity |].
  apply procesar_contenido_cerrada.
Qed.

(** X6. The tree returned by [analizar_cadena] is the tree of
    [_construir_arbol] with attributes written on it: with every
    attribute back to its initial value the two are equal, so
    [_decorar_arbol] changes no symbol, no type and no list of
    children. *)
Theorem decoracion_conserva_estructura (cadena : str) (arbol : Nodo) :
  arbol_de cadena = Some arbol -> borrar arbol = _construir_arbol cadena.
Proof.
  intros H. destruct (arbol_de_inv cadena arbol H) as [_ ->].
  rewrite decorar_borrar. apply borrar_fresco, construir_arbol_fresco.
Qed.

Lemma decoracion_conserva_estructura_testigo :
  exists arbol,
    arbol_de (py "{ $ R }") = Some arbol /\
    borrar arbol = _construir_arbol (py "{ $ R }").
Proof.
  eexists. split; [vm_compute; reflexivity |].
  apply (decoracion_conserva_estructura (py "{ $ R }")).
  vm_compute. reflexivity.
Defined.

(** X7. In the tree returned by [analizar_cadena] a node is valid
    exactly when its list [errores] is empty. *)
Theorem nodos_coherentes (cadena : str) (arbol : Nodo) :
  arbol_de cadena = Some arbol ->
  Forall (fun n => n_valido n = true <-> n_errores n = []) (nodos arbol).
Proof.
  intros H. destruct (arbol_de_inv cadena arbol H) as [_ ->].
  destruct (decorar_validez [] None (_construir_arbol cadena)
              atributos_iniciales 1 (construir_arbol_fresco cadena)
              eq_refl eq_refl) as [Hc _].
  exact Hc.
Qed.

Lemma nodos_coherentes_testigo :
  exists arbol,
    arbol_de (py "{ R }") = Some arbol /\
    Forall (fun n => n_valido n = true <-> n_errores n = []) (nodos arbol).
Proof.
  eexists. split; [vm_compute; reflexivity |].
  apply (nodos_coherentes (py "{ R }")). vm_compute. reflexivity.
Defined.

(** X8. When [analizar_cadena] returns a tree, [es_valida] is
    [raiz.valido]: the test on [errores_globales] adds nothing.  When
    [es_valida] is true, [errores_globales] is empty and every node of
    the tree is valid and free of diagnostics. *)
Theorem validez_global (cadena : str) (arbol : Nodo) :
  arbol_de cadena = Some arbol ->
  es_valida_de cadena = n_valido arbol /\
  (es_valida_de cadena = true ->
   errores_de cadena = [] /\
   forall n, In n (nodos arbol) -> n_valido n = true /\ n_errores n = []).
Proof.
  intros H. destruct (arbol_de_inv cadena arbol H) as [Hv ->].
  destruct (validez_de_la_raiz cadena Hv) as [Hr He].
  split; [exact Hr |]. intros Hes. split; [exact (He Hes) |].
  destruct (decorar_validez [] None (_construir_arbol cadena)
              atributos_iniciales 1 (construir_arbol_fresco cadena)
              eq_refl eq_refl) as [Hc Hval].
  rewrite Hr in Hes. destruct (Hval Hes) as [Hn _].
  rewrite Forall_forall in Hc, Hn. intros n Hin.
  split; [exact (Hn n Hin) |]. apply (Hc n Hin), (Hn n Hin).
Qed.

Lemma validez_global_testigo :
  exists arbol,
    arbol_de (py "{ $ $ $ R }") = Some arbol /\
    es_valida_de (py "{ $ $ $ R }") = n_valido arbol /\
    (es_valida_de (py "{ $ $ $ R }") = true ->
     errores_de (py "{ $ $ $ R }") = [] /\
     forall n, In n (nodos arbol) -> n_valido n = true /\ n_errores n = []).
Proof.
  eexists. split; [vm_compute; reflexivity |].
  apply (validez_global (py "{ $ $ $ R }")). vm_compute. reflexivity.
Defined.

(** X9. On a string of the grammar [es_valida] is the verdict of the
    reference machine [correr] run on the characters of the string:
    every block starts with balance 0 and no purchase, [$] adds a coin,
    [R] needs a balance of 3 and fewer than 3 purchases in its block,
    [<] needs a coin, a fourth open block is refused, and a closed block
    leaves the enclosing one as it was. *)
Theorem validez_por_maquina (cadena : str) :
  cadena_gramatical cadena ->
  es_valida_de cadena = termina (correr [] cadena).
Proof.
  intros Hg. pose proof (gramatical_valida cadena Hg) as Hv.
  destruct (validez_de_la_raiz cadena Hv) as [-> _].
  destruct Hg as (s & Hs & ->). apply raiz_maquina, Hs.
Qed.

Lemma validez_por_maquina_testigo :
  es_valida_de (py "{${R}<}") = termina (correr [] (py "{${R}<}")).
Proof.
  apply (validez_por_maquina (py "{${R}<}")).
  exists (py "${R}<"). split; [| reflexivity].
  apply cg_ficha; [reflexivity |].
  apply (cg_bloque (py "R") (py "<"));
    (apply cg_ficha; [reflexivity | apply cg_vacio]).
Defined.

(** X10. On a string of the grammar [errores_globales] is empty after
    the analysis exactly when the braces of the string are at most three
    deep: the list reports the nesting limit and nothing else, so it is
    empty also for a string that is invalid for its balance or its
    purchases. *)
Theorem globales_por_profundidad (cadena : str) :
  cadena_gramatical cadena ->
  (errores_de cadena = [] <-> profundidad_maxima cadena <= 3).
Proof.
  intros Hg. pose proof (gramatical_valida cadena Hg) as Hv.
  destruct (arbol_de_valida cadena Hv) as (_ & He & _).
  split.
  - intros Hnil. destruct (Z_lt_le_dec 3 (profundidad_maxima cadena)) as [Hp|Hp];
      [| exact Hp].
    exfalso. destruct Hg as (s & Hs & ->).
    rewrite He, construir_arbol_eq, decorar_P in Hnil by lia.
    cbv zeta in Hnil. cbn [snd] in Hnil.
    replace (rebanada_1_m1 (car "{" :: s ++ [car "}"])) with s in Hnil
      by (unfold rebanada_1_m1; cbn [tl]; rewrite removelast_last; reflexivity).
    change (car "{" :: s ++ [car "}"])
      with (car "{" :: s ++ car "}" :: []) in Hp.
    rewrite (profundidad_bloque s [] Hs) in Hp. cbn [profundidad_maxima] in Hp.
    assert (Hd : 3 < 1 + profundidad_maxima (strip s))
      by (rewrite profundidad_strip; lia).
    destruct (profundo_no_vacio (strip s) ltac:(lia)) as [_ Hne].
    unfold _procesar_contenido in Hnil.
    destruct (strip s) as [|c r] eqn:E; [congruence |]. rewrite <- E in *.
    pose proof (bucle_profundo (strip s) (strip_gramatical s Hs)
                  (List.length (strip s)) []
                  (Some (con_nivel atributos_iniciales 1)) no_terminal
                  atributos_iniciales atributos_iniciales 1 (le_n _)
                  ltac:(lia) Hd) as Hlt.
    cbn [atributos] in Hnil. rewrite Hnil in Hlt. simpl in Hlt. lia.
  - intros Hp. destruct Hg as (s & Hs & ->).
    rewrite He, construir_arbol_eq, decorar_P by lia.
    cbv zeta. cbn [snd].
    replace (rebanada_1_m1 (car "{" :: s ++ [car "}"])) with s
      by (unfold rebanada_1_m1; cbn [tl]; rewrite removelast_last; reflexivity).
    change (car "{" :: s ++ [car "}"])
      with (car "{" :: s ++ car "}" :: []) in Hp.
    rewrite (profundidad_bloque s [] Hs) in Hp. cbn [profundidad_maxima] in Hp.
    pose proof (profundidad_no_negativa s) as Hs0.
    unfold _procesar_contenido.
    destruct (strip s) as [|c r] eqn:E.
    + rewrite decorar_C_eps by (lia || reflexivity). reflexivity.
    + rewrite <- E.
      apply (bucle_somero (strip s) (strip_gramatical s Hs)
               (List.length (strip s)) (le_n _)).
      rewrite profundidad_strip. lia.
Qed.

Lemma globales_por_profundidad_testigo :
  errores_de (py "{${R}<}") = [] <-> profundidad_maxima (py "{${R}<}") <= 3.
Proof.
  apply (globales_por_profundidad (py "{${R}<}")).
  exists (py "${R}<"). split; [| reflexivity].
  apply cg_ficha; [reflexivity |].
  apply (cg_bloque (py "R") (py "<"));
    (apply cg_ficha; [reflexivity | apply cg_vacio]).
Defined.

(** X11. The text of [imprimir_arbol] is the lines of
    [lineas_indentadas] joined by line feeds: the nodes in prefix order,
    each indented by two spaces per level, a non terminal followed by
    one line per diagnostic.  The nested joins add and lose no line:
    there are as many lines as nodes plus diagnostics of non terminal
    nodes. *)
Theorem imprimir_arbol_por_lineas (nodo : Nodo) (nivel_ : Z) :
  imprimir_arbol nodo nivel_ = unir salto (lineas_indentadas nodo nivel_) /\
  List.length (lineas_indentadas nodo nivel_) = cuenta_lineas nodo.
Proof.
  split; [apply imprimir_arbol_lineas | apply cuenta_lineas_indentadas].
Qed.

(** X12. The text of [imprimir_arbol_visual] is the lines of
    [lineas_visuales] joined by line feeds, and it has as many lines as
    the text of [imprimir_arbol]: one per node and one per diagnostic of
    a non terminal node. *)
Theorem imprimir_arbol_visual_por_lineas (nodo : Nodo) (prefijo : str)
    (es_ultimo es_raiz : bool) :
  imprimir_arbol_visual nodo prefijo es_ultimo es_raiz
  = unir salto (lineas_visuales nodo prefijo es_ultimo es_raiz) /\
  List.length (lineas_visuales nodo prefijo es_ultimo es_raiz)
  = cuenta_lineas nodo.
Proof.
  split; [apply imprimir_arbol_visual_lineas | apply cuenta_lineas_visuales].
Qed.

(** X13. Both renderings of a tree returned by [analizar_cadena] start
    with the line of the root, which always shows [saldo=0],
    [nivel=1] and [refrescos=0], and [valido] equal to [es_valida]. *)
Theorem encabezado_del_arbol (cadena : str) (arbol : Nodo) :
  arbol_de cadena = Some arbol ->
  exists resto resto',
    imprimir_arbol arbol 0 =
    unir salto
      ((py "P (saldo=0, valido=" ++ str_de_bool (es_valida_de cadena)
          ++ py ", nivel=1, refrescos=0)") :: resto)
    /\ imprimir_arbol_visual arbol [] true true =
       unir salto
         ((py "P[saldo=0, valido=" ++ str_de_bool (es_valida_de cadena)
             ++ py ", nivel=1, refrescos=0]") :: resto').
Proof.
  intros H. destruct (arbol_de_inv cadena arbol H) as [Hv ->].
  destruct (validez_de_la_raiz cadena Hv) as [-> _].
  rewrite construir_arbol_eq, decorar_P by lia. cbv zeta. cbn [fst].
  destruct (decorar_cadena_cerrada
              (_procesar_contenido (strip (rebanada_1_m1 cadena)))
              (procesar_contenido_cerrada _) []
              (Some (con_nivel atributos_iniciales 1)) no_terminal
              atributos_iniciales atributos_iniciales 1 ltac:(lia))
    as [Hs Hr].
  cbn [atributos] in *. rewrite Hs, Hr.
  rewrite imprimir_arbol_lineas, imprimir_arbol_visual_lineas.
  match goal with
  | |- context [lineas_indentadas (mkNodo ?s _ ?h ?a) _] =>
      destruct (linea_de_no_terminal s h a 0) as [r ->];
      destruct (linea_visual_de_la_raiz s h a [] true) as [r' ->]
  end.
  exists r, r'. unfold n_valido.
  cbn [saldo valido nivel refrescos_comprados atributos].
  match goal with
  | |- context [str_de_bool ?v] => generalize v
  end.
  intros v. split; do 2 f_equal; destruct v; reflexivity.
Qed.

Lemma encabezado_del_arbol_testigo :
  exists arbol resto resto',
    arbol_de (py "{ $ $ }") = Some arbol /\
    imprimir_arbol arbol 0 =
    unir salto
      ((py "P (saldo=0, valido=" ++ str_de_bool (es_valida_de (py "{ $ $ }"))
          ++ py ", nivel=1, refrescos=0)") :: resto)
    /\ imprimir_arbol_visual arbol [] true true =
       unir salto
         ((py "P[saldo=0, valido=" ++ str_de_bool (es_valida_de (py "{ $ $ }"))
             ++ py ", nivel=1, refrescos=0]") :: resto').
Proof.
  assert (Ha : arbol_de (py "{ $ $ }")
               = Some (fst (_decorar_arbol [] None
                              (_construir_arbol (py "{ $ $ }"))
                              atributos_iniciales 1)))
    by (vm_compute; reflexivity).
  destruct (encabezado_del_arbol (py "{ $ $ }") _ Ha) as (r & r' & H1 & H2).
  exists (fst (_decorar_arbol [] None (_construir_arbol (py "{ $ $ }"))
                 atributos_iniciales 1)), r, r'.
  split; [exact Ha | split; [exact H1 | exact H2]].
Defined.

(** X14. The strings that the batch mode of [main] reads from a file
    are not empty and carry no surrounding white space; a line is
    either white space only, and left out, or analysed without its
    surrounding white space; and [_validar_sintaxis] gives the string
    the verdict it gives the line. *)
Theorem cadenas_de_archivo_limpias (archivo : list str) :
  Forall (fun cadena => cadena <> [] /\ strip cadena = cadena)
    (cadenas_de_archivo archivo)
  /\ (forall linea, In linea archivo ->
        en_blanco linea \/ In (strip linea) (cadenas_de_archivo archivo))
  /\ (forall cadena, In cadena (cadenas_de_archivo archivo) ->
        exists linea, In linea archivo /\ cadena = strip linea
                      /\ sintaxis_valida cadena = sintaxis_valida linea).
Proof.
  unfold cadenas_de_archivo. split; [| split].
  - apply Forall_forall. intros c Hc. apply in_map_iff in Hc.
    destruct Hc as (l & <- & Hl). apply filter_In in Hl. destruct Hl as [_ Hl].
    split; [destruct (strip l); [discriminate | discriminate] |].
    apply strip_idempotente.
  - intros l Hl. destruct (strip l) as [|c r] eqn:E.
    + left. apply strip_nil_blancos, E.
    + right. rewrite <- E. apply in_map, filter_In. split; [exact Hl |].
      rewrite E. reflexivity.
  - intros c Hc. apply in_map_iff in Hc. destruct Hc as (l & <- & Hl).
    apply filter_In in Hl. destruct Hl as [Hl _]. exists l.
    split; [exact Hl | split; [reflexivity |]].
    rewrite !validar_por_strip, strip_idempotente. reflexivity.
Qed.

(** X15. When the name of the input file does not contain [.txt], the
    name computed for the result file is the name of the input file
    itself. *)
Theorem nombre_salida_sin_extension (nombre_archivo : str) :
  contiene (py ".txt") nombre_archivo = false ->
  nombre_salida nombre_archivo = nombre_archivo.
Proof. apply reemplazar_ausente. Qed.

Lemma nombre_salida_sin_extension_testigo :
  nombre_salida (py "cadenas.dat") = py "cadenas.dat".
Proof.
  apply (nombre_salida_sin_extension (py "cadenas.dat")).
  vm_compute. reflexivity.
Defined.

(** X16. For a name [base.txt] whose [base] does not contain [.txt]
    the result file is [base_resultado.txt]. *)
Theorem nombre_salida_con_extension (base : str) :
  contiene (py ".txt") base = false ->
  nombre_salida (base ++ py ".txt") = base ++ py "_resultado.txt".
Proof. apply reemplazar_txt_final. Qed.

Lemma nombre_salida_con_extension_testigo :
  nombre_salida (py "cadenas" ++ py ".txt")
  = py "cadenas" ++ py "_resultado.txt".
Proof.
  apply (nombre_salida_con_extension (py "cadenas")).
  vm_compute. reflexivity.
Defined.

(** X17. The analyser gives each of the eight predefined examples of
    the graphical interface the verdict that its description
    announces. *)
Theorem ejemplos_conformes :
  Forall (fun e => es_valida_de (fst e) = es_prefijo (py "Válido") (snd e))
    ejemplos.
Proof. repeat constructor. Qed.
